(** * make-gallery-pages: a shallow embedding and its properties

    The script walks a gallery tree, builds one record per example from its
    [conf.yaml] (optionally enriched with HydroShare metadata), relocates the
    thumbnail, and files the record in a nested dictionary keyed by
    sub-gallery path and category.

    Python values are embedded as follows.
    - [str] is a list of Unicode code points ([N]); [bytes] is a list of
      octets ([N] below 256).
    - [dict] with string keys is a [gmap pystr _]; nested YAML data is the
      inductive [value].
    - Exceptions are the [Raise] results of a small state-and-error monad
      whose state is the trace of effects performed so far.
    - The outside world (HTTP service, file system, YAML files, template
      engine) is an [env] of oracles that may depend on that trace. *)

From Stdlib Require Import NArith ZArith Lia Ascii String.
From stdpp Require Import gmap strings list fin_maps.

#[local] Set Warnings "-register-all".
#[local] Open Scope N_scope.

(* ================================================================== *)
(** ** Python strings *)

Definition pystr := list N.

(** An ASCII literal of the source as a Python string. *)
Definition lit (s : string) : pystr :=
  map N_of_ascii (list_ascii_of_string s).

Definition LF : N := 10.
Definition CR : N := 13.

(** [s.replace(old, new)] for a one-character [old]. *)
Definition replace_char (old : N) (new : pystr) (s : pystr) : pystr :=
  flat_map (fun c => if N.eqb c old then new else [c]) s.

(** [s.encode("ascii", "ignore").decode()]: characters that have no ASCII
    encoding are dropped, the others are kept as they are. *)
Definition is_ascii (c : N) : bool := N.ltb c 128.

Definition encode_ascii_ignore (s : pystr) : pystr :=
  List.filter is_ascii s.

(** Control characters (Unicode category Cc), and a text with them
    stripped: the reading of the fetched description to compare with. *)
Definition is_control (c : N) : bool :=
  N.ltb c 32 || (N.leb 127 c && N.ltb c 160).

Definition strip_control_characters (s : pystr) : pystr :=
  List.filter (fun c => negb (is_control c)) s.

(** [s.encode()]: UTF-8.  Lone surrogates, which a Python [str] may hold,
    have no encoding ([UnicodeEncodeError], here [None]). *)
Definition utf8_encode_char (c : N) : option (list N) :=
  if N.ltb c 128 then Some [c]
  else if N.ltb c 2048 then
    Some [N.lor 192 (N.shiftr c 6); N.lor 128 (N.land c 63)]
  else if N.ltb c 65536 then
    if N.leb 55296 c && N.leb c 57343 then None
    else Some [N.lor 224 (N.shiftr c 12);
               N.lor 128 (N.land (N.shiftr c 6) 63);
               N.lor 128 (N.land c 63)]
  else if N.ltb c 1114112 then
    Some [N.lor 240 (N.shiftr c 18);
          N.lor 128 (N.land (N.shiftr c 12) 63);
          N.lor 128 (N.land (N.shiftr c 6) 63);
          N.lor 128 (N.land c 63)]
  else None.

Fixpoint utf8_encode (s : pystr) : option (list N) :=
  match s with
  | [] => Some []
  | c :: r =>
      match utf8_encode_char c, utf8_encode r with
      | Some bs, Some rest => Some (bs ++ rest)
      | _, _ => None
      end
  end.

(** A sequence of octets. *)
Definition octets (bs : list N) : Prop := Forall (fun b => b < 256) bs.

(* ================================================================== *)
(** ** base64 (RFC 4648, standard alphabet, with padding) *)

Module Base64.

Definition pad : N := 61.

(** The character of a six-bit digit: [A-Z], [a-z], [0-9], [+], [/]. *)
Definition alphabet (d : N) : N :=
  if N.ltb d 26 then 65 + d
  else if N.ltb d 52 then 97 + (d - 26)
  else if N.ltb d 62 then 48 + (d - 52)
  else if N.eqb d 62 then 43 else 47.

(** [base64.b64encode]: three octets give four digits; a last group of
    one or two octets is padded with [=]. *)
Fixpoint b64encode (bs : list N) : list N :=
  match bs with
  | [] => []
  | [a] =>
      [alphabet (N.shiftr a 2);
       alphabet (N.shiftl (N.land a 3) 4);
       pad; pad]
  | [a; b] =>
      [alphabet (N.shiftr a 2);
       alphabet (N.lor (N.shiftl (N.land a 3) 4) (N.shiftr b 4));
       alphabet (N.shiftl (N.land b 15) 2);
       pad]
  | a :: b :: c :: rest =>
      alphabet (N.shiftr a 2)
      :: alphabet (N.lor (N.shiftl (N.land a 3) 4) (N.shiftr b 4))
      :: alphabet (N.lor (N.shiftl (N.land b 15) 2) (N.shiftr c 6))
      :: alphabet (N.land c 63)
      :: b64encode rest
  end.

(** The digit of a character of the alphabet. *)
Definition digit (c : N) : option N :=
  if N.leb 65 c && N.leb c 90 then Some (c - 65)
  else if N.leb 97 c && N.leb c 122 then Some (c - 97 + 26)
  else if N.leb 48 c && N.leb c 57 then Some (c - 48 + 52)
  else if N.eqb c 43 then Some 62
  else if N.eqb c 47 then Some 63
  else None.

(** The decoder the label is read back with: groups of four characters,
    padding allowed in the last group only. *)
Fixpoint b64decode (cs : list N) : option (list N) :=
  match cs with
  | [] => Some []
  | c0 :: c1 :: c2 :: c3 :: rest =>
      match digit c0, digit c1 with
      | Some d0, Some d1 =>
          let o0 := N.lor (N.shiftl d0 2) (N.shiftr d1 4) in
          if N.eqb c3 pad then
            match rest with
            | [] =>
                if N.eqb c2 pad then Some [o0]
                else
                  match digit c2 with
                  | Some d2 =>
                      Some [o0; N.lor (N.shiftl (N.land d1 15) 4)
                                      (N.shiftr d2 2)]
                  | None => None
                  end
            | _ :: _ => None
            end
          else
            match digit c2, digit c3, b64decode rest with
            | Some d2, Some d3, Some tl =>
                Some (o0
                      :: N.lor (N.shiftl (N.land d1 15) 4) (N.shiftr d2 2)
                      :: N.lor (N.shiftl (N.land d2 3) 6) d3
                      :: tl)
            | _, _, _ => None
            end
      | _, _ => None
      end
  | _ => None
  end.

End Base64.

(* ================================================================== *)
(** ** posixpath *)

Module Posixpath.

Definition sep : N := 47.

(** [p.rfind('/') + 1]. *)
Fixpoint rfind_sep_succ (p : pystr) : nat :=
  match p with
  | [] => O
  | c :: r =>
      match rfind_sep_succ r with
      | O => if N.eqb c sep then 1%nat else O
      | S k => S (S k)
      end
  end.

(** [head.rstrip('/')]. *)
Fixpoint rstrip_sep (p : pystr) : pystr :=
  match p with
  | [] => []
  | c :: r =>
      match rstrip_sep r with
      | [] => if N.eqb c sep then [] else [c]
      | r' => c :: r'
      end
  end.

(** [head == sep * len(head)]. *)
Definition all_sep (p : pystr) : bool := forallb (N.eqb sep) p.

Definition basename (p : pystr) : pystr := drop (rfind_sep_succ p) p.

Definition dirname (p : pystr) : pystr :=
  let head := take (rfind_sep_succ p) p in
  match head with
  | [] => head
  | _ :: _ => if all_sep head then head else rstrip_sep head
  end.

Definition starts_with_sep (p : pystr) : bool :=
  match p with
  | c :: _ => N.eqb c sep
  | [] => false
  end.

Definition ends_with_sep (p : pystr) : bool :=
  match last p with
  | Some c => N.eqb c sep
  | None => false
  end.

(** [os.path.join(a, b)] on two components. *)
Definition join (a b : pystr) : pystr :=
  if starts_with_sep b then b
  else
    match a with
    | [] => b
    | _ :: _ => if ends_with_sep a then a ++ b else a ++ sep :: b
    end.

(** A directory name: not empty, no separator. *)
Definition is_name (p : pystr) : Prop := p <> [] /\ sep ∉ p.

End Posixpath.

(* ================================================================== *)
(** ** Values, exceptions, effects *)

(** What [yaml.load] and the metadata parser produce: null, strings,
    integers, booleans, sequences and mappings with string keys. *)
Inductive value :=
| VNone
| VStr (s : pystr)
| VInt (z : Z)
| VBool (b : bool)
| VList (l : list value)
| VDict (d : gmap pystr value).

(** An ExampleRecord is a dictionary. *)
Abbreviation record := (gmap pystr value).

(** The SubgalleryIndex: sub-gallery path, then category, then the
    examples in the order they were appended. *)
Abbreviation index := (gmap pystr (gmap pystr (list (gmap pystr value)))).

Definition is_none (v : value) : bool :=
  match v with
  | VNone => true
  | _ => false
  end.

Inductive exn :=
| KeyError (k : pystr)
| AttributeError
| TypeError
| UnicodeEncodeError
| OSError (errno : N)
| XMLSyntaxError
| TemplateError
| YAMLError
| Exception.

Inductive result (A : Type) :=
| Ok (a : A)
| Raise (e : exn).
Arguments Ok {A} a.
Arguments Raise {A} e.

(** Effects on the outside world, in the order they happen. *)
Inductive event :=
| Print (line : pystr)
| HttpGet (url : pystr)
| WriteCache (path : pystr) (data : record)
| RenderPage (template : pystr) (data : record) (outpath : pystr)
| CopyFile (src dst : pystr).

(** *** The science-metadata document, as the parser queries it

    [find] gives an element or [None]; the [text] of an element is a string
    or [None]. *)
Definition element := option pystr.

Record creator_terms := {
  hs_name : option element;
  hs_organization : option element;
  hs_email : option element;
  hs_description : option element;
}.

Record scimeta := {
  dc_creators : list (option creator_terms);
  dc_title : option element;
  dcterms_abstract : option element;
  dc_subjects : list element;
}.

(** A response of [requests.get]: its status and, when the body is an XML
    document binding the prefixes the queries use, that document. *)
Record response := {
  status_code : Z;
  document : option scimeta;
}.

(** *** The environment

    Every oracle receives the trace of the effects performed so far. *)
Record env := {
  (** [str(v)] for numbers and containers. *)
  repr_other : value -> pystr;
  (** [os.path.abspath]. *)
  abspath : pystr -> pystr;
  (** [requests.get(url)]; [None] when the request itself raises. *)
  http_get : list event -> pystr -> option response;
  (** [open(conf)] followed by [yaml.load]. *)
  load_yaml : list event -> pystr -> result value;
  (** [os.path.exists]. *)
  path_exists : list event -> pystr -> bool;
  (** Failure of writing the cache file, of rendering, of copying. *)
  write_error : list event -> pystr -> option exn;
  render_error : list event -> pystr -> record -> pystr -> option exn;
  copy_error : list event -> pystr -> pystr -> option exn;
  (** [print] of the fetcher's diagnostic, whose text comes from the
      configuration: the error it raises when standard output cannot
      take the line (a character it cannot encode), [None] otherwise. *)
  print_error : list event -> pystr -> option exn;
}.

(** *** The monad: a trace of events threaded through, and exceptions *)
Definition M (A : Type) : Type := list event -> result A * list event.

Definition ret {A} (a : A) : M A := fun tr => (Ok a, tr).

Definition bind {A B} (m : M A) (f : A -> M B) : M B :=
  fun tr =>
    match m tr with
    | (Ok a, tr') => f a tr'
    | (Raise e, tr') => (Raise e, tr')
    end.

Definition raise {A} (e : exn) : M A := fun tr => (Raise e, tr).

Definition emit (ev : event) : M unit := fun tr => (Ok tt, tr ++ [ev]).

Definition history : M (list event) := fun tr => (Ok tr, tr).

(** [try: m except Exception: h]. *)
Definition try_except {A} (m : M A) (h : M A) : M A :=
  fun tr =>
    match m tr with
    | (Ok a, tr') => (Ok a, tr')
    | (Raise _, tr') => h tr'
    end.

Notation "'do' x <- m ; k" := (bind m (fun x => k))
  (at level 10, x name, m at level 100, k at level 200).

Definition lift {A} (r : result A) : M A := fun tr => (r, tr).

(** An operation of the environment that may fail before its effect. *)
Definition perform (err : list event -> option exn) (ev : event) : M unit :=
  do tr <- history;
  match err tr with
  | Some e => raise e
  | None => emit ev
  end.

(* ================================================================== *)
(** ** Module-level constants and dictionary keys *)

Definition template_dir : pystr := lit "./source/_templates".
Definition static_dir : pystr := lit "./source/_static".

Definition k_authors : pystr := lit "authors".
Definition k_title : pystr := lit "title".
Definition k_description : pystr := lit "description".
Definition k_keywords : pystr := lit "keywords".
Definition k_label : pystr := lit "label".
Definition k_thumbnail : pystr := lit "thumbnail".
Definition k_hydroshare : pystr := lit "hydroshare".
Definition k_id : pystr := lit "id".
Definition k_name : pystr := lit "name".
Definition k_organization : pystr := lit "organization".
Definition k_email : pystr := lit "email".
Definition k_url : pystr := lit "url".

Definition default_thumbnail : pystr := lit "missing-thumbnail.png".
Definition br_marker : pystr := lit "<br>".

(** [str(v)] as an f-string inserts it. *)
Definition py_str (E : env) (v : value) : pystr :=
  match v with
  | VStr s => s
  | VNone => lit "None"
  | VBool true => lit "True"
  | VBool false => lit "False"
  | _ => repr_other E v
  end.

Definition text_value (t : element) : value :=
  match t with
  | Some s => VStr s
  | None => VNone
  end.

(* ================================================================== *)
(** ** Dictionary primitives *)

(** [d[k]]. *)
Definition getitem (d : record) (k : pystr) : M value :=
  match d !! k with
  | Some v => ret v
  | None => raise (KeyError k)
  end.

(** [v[k]] for any value [v]: only a mapping can be indexed by a string. *)
Definition subscript (v : value) (k : pystr) : M value :=
  match v with
  | VDict d => getitem d k
  | _ => raise TypeError
  end.

(** The receiver of a [.get] call: anything but a mapping has no such
    method. *)
Definition as_dict (v : value) : M record :=
  match v with
  | VDict d => ret d
  | _ => raise AttributeError
  end.

(** [d.update(other)] . *)
Definition dict_update (d other : record) : record := other ∪ d.

(* ================================================================== *)
(** ** get_metadata_from_hs *)

Definition put_text (k : pystr) (found : option element) (d : record)
  : record :=
  match found with
  | Some el => <[k := text_value el]> d
  | None => d
  end.

(** The dictionary [d] built for one creator. *)
Definition author_record (E : env) (terms : creator_terms) : record :=
  let d :=
    put_text k_email (hs_email terms)
      (put_text k_organization (hs_organization terms)
         (put_text k_name (hs_name terms) ∅)) in
  match hs_description terms with
  | Some user_url =>
      <[k_url := VStr (lit "https://hydroshare.org"
                       ++ py_str E (text_value user_url))]> d
  | None => d
  end.

(** The loop over the creators; a creator without [rdf:Description]
    makes [terms.find] fail. *)
Fixpoint authors_of (E : env) (creators : list (option creator_terms))
  : option (list value) :=
  match creators with
  | [] => Some []
  | None :: _ => None
  | Some terms :: rest =>
      match authors_of E rest with
      | Some l => Some (VDict (author_record E terms) :: l)
      | None => None
      end
  end.

(** The body of the [try] once the document is parsed; [None] when one of
    the attribute accesses fails. *)
Definition parse_scimeta (E : env) (root : scimeta) : option record :=
  match authors_of E (dc_creators root),
        dc_title root, dcterms_abstract root with
  | Some authors, Some title, Some (Some abstract) =>
      let data :=
        <[k_description := VStr (encode_ascii_ignore abstract)]>
          (<[k_title := text_value title]>
             (<[k_authors := VList authors]> ∅)) in
      let keywords := map text_value (dc_subjects root) in
      Some match keywords with
           | [] => data
           | _ :: _ => <[k_keywords := VList keywords]> data
           end
  | _, _, _ => None
  end.

Definition scimeta_url (E : env) (hsguid : value) : pystr :=
  lit "https://hydroshare.org/hsapi/resource/"
  ++ py_str E hsguid ++ lit "/scimeta".

Definition fetch_scimeta (E : env) (hsguid : value) : M record :=
  do tr <- history;
  do _ <- emit (HttpGet (scimeta_url E hsguid));
  match http_get E tr (scimeta_url E hsguid) with
  | None => raise (OSError 0)
  | Some r =>
      if negb (Z.eqb (status_code r) 200) then raise Exception
      else
        match document r with
        | None => raise XMLSyntaxError
        | Some root =>
            match parse_scimeta E root with
            | Some data => ret data
            | None => raise AttributeError
            end
        end
  end.

Definition fetch_failed_text (E : env) (hsguid : value) : pystr :=
  lit "Failed to get hydroshare data for resource id: " ++ py_str E hsguid.

Definition fetch_failed_line (E : env) (hsguid : value) : event :=
  Print (fetch_failed_text E hsguid).

(** The [print] in the handler: nothing is around it, so what it raises
    leaves the function. *)
Definition print_diagnostic (E : env) (line : pystr) : M unit :=
  perform (fun tr => print_error E tr line) (Print line).

Definition get_metadata_from_hs (E : env) (hsguid : value)
  : M (option record) :=
  try_except
    (do data <- fetch_scimeta E hsguid; ret (Some data))
    (do _ <- print_diagnostic E (fetch_failed_text E hsguid);
     ret None).

(* ================================================================== *)
(** ** copy_static *)

Definition warn_missing_thumbnail : event :=
  Print (lit "WARNING: Missing thumbnail, setting to default image").

Definition use_default_thumbnail (data : record) : M record :=
  do _ <- emit warn_missing_thumbnail;
  ret (<[k_thumbnail := VStr default_thumbnail]> data).

Definition copy_static (E : env) (subdir : pystr) (data : record)
  : M record :=
  match data !! k_thumbnail with
  | Some (VStr thumbnail) =>
      let thumbnail_path := abspath E (Posixpath.join subdir thumbnail) in
      do tr <- history;
      if path_exists E tr thumbnail_path then
        do label <- getitem data k_label;
        let thumbnail_new_name := lit "thumbnail-" ++ py_str E label in
        let dst := static_dir ++ lit "/" ++ thumbnail_new_name in
        do _ <- perform (fun tr => copy_error E tr thumbnail_path dst)
                    (CopyFile thumbnail_path dst);
        ret (<[k_thumbnail := VStr thumbnail_new_name]> data)
      else use_default_thumbnail data
  | Some _ => raise TypeError
  | None => use_default_thumbnail data
  end.

(* ================================================================== *)
(** ** write_yaml_cache, render_page *)

Definition write_yaml_cache (E : env) (outdir : pystr) (data : record)
  : M unit :=
  let path := Posixpath.join outdir (lit ".cache.yaml") in
  perform (fun tr => write_error E tr path) (WriteCache path data).

Definition render_page (E : env) (template : pystr) (data : record)
  (outpath : pystr) : M unit :=
  perform (fun tr => render_error E tr template data outpath)
          (RenderPage template data outpath).

(* ================================================================== *)
(** ** build_example_page *)

(** [base64.b64encode(data['title'].encode()).decode()]. *)
Definition title_label (data : record) : M value :=
  do title <- getitem data k_title;
  match title with
  | VStr s =>
      match utf8_encode s with
      | Some bs => ret (VStr (Base64.b64encode bs))
      | None => raise UnicodeEncodeError
      end
  | _ => raise AttributeError
  end.

Definition ensure_label (data : record) : M record :=
  match data !! k_label with
  | Some _ => ret data
  | None =>
      do label <-
        try_except
          (do hs <- getitem data k_hydroshare; subscript hs k_id)
          (title_label data);
      ret (<[k_label := label]> data)
  end.

(** [data['description'] = data['description'].replace(old, new)]. *)
Definition replace_in_description (old : N) (new : pystr) (data : record)
  : M record :=
  do description <- getitem data k_description;
  match description with
  | VStr s => ret (<[k_description := VStr (replace_char old new s)]> data)
  | _ => raise AttributeError
  end.

(** The remote resource identifier a record carries, if any:
    [data['hydroshare']['id']]. *)
Definition remote_id (data : record) : option value :=
  match data !! k_hydroshare with
  | Some (VDict hydroshare) => hydroshare !! k_id
  | _ => None
  end.

(** [yaml_data.get("hydroshare", {}).get("id")] where the [hydroshare]
    entry is absent or a mapping: the identifier the builder fetches
    with unless it is [None]. *)
Definition configured_id (yaml_data : record) : option value :=
  match default (VDict ∅) (yaml_data !! k_hydroshare) with
  | VDict hydroshare => Some (default VNone (hydroshare !! k_id))
  | _ => None
  end.

(** The two statements that clean the description. *)
Definition normalize_description (data : record) : M record :=
  do data <- replace_in_description LF [] data;
  replace_in_description CR br_marker data.

(** What they do to the text. *)
Definition clean_description (s : pystr) : pystr :=
  replace_char CR br_marker (replace_char LF [] s).

(** [data = hsdata or {}] followed by [data.update(yaml_data)]. *)
Definition merge_metadata (hsdata : option record) (yaml_data : record)
  : record :=
  dict_update (default ∅ hsdata) yaml_data.

Definition landing_template : pystr :=
  Posixpath.join template_dir (lit "landingpage.rst").

(** The part of the builder after the metadata is available. *)
Definition finish_example (E : env) (subdir : pystr)
  (hsdata : option record) (yaml_data : record) : M (option record) :=
  let data := merge_metadata hsdata yaml_data in
  do data <- ensure_label data;
  do data <- normalize_description data;
  do _ <- write_yaml_cache E subdir data;
  do _ <- render_page E landing_template
                  data (Posixpath.join subdir (lit "index.rst"));
  ret (Some data).

Definition something_happened_line : event :=
  Print (lit "something happened when collecting hs metadata").

Definition build_example_page (E : env) (subdir conf : pystr)
  : M (option record) :=
  do tr <- history;
  do loaded <- lift (load_yaml E tr conf);
  do yaml_data <- as_dict loaded;
  do hydroshare <- as_dict (default (VDict ∅) (yaml_data !! k_hydroshare));
  let hsid := default VNone (hydroshare !! k_id) in
  if is_none hsid then finish_example E subdir None yaml_data
  else
    do hsdata <- get_metadata_from_hs E hsid;
    match hsdata with
    | None =>
        do _ <- emit something_happened_line;
        ret None
    | Some _ => finish_example E subdir hsdata yaml_data
    end.

(* ================================================================== *)
(** ** The traversal loop of the main program *)

Definition subgallery_of (subdir : pystr) : pystr :=
  Posixpath.dirname (Posixpath.dirname subdir).

Definition category_of (subdir : pystr) : pystr :=
  Posixpath.basename (Posixpath.dirname subdir).

(** The three statements that file [data] in [subgalleries]. *)
Definition file_record (subdir : pystr) (data : record)
  (subgalleries : index) : index :=
  let subgallery_path := subgallery_of subdir in
  let category := category_of subdir in
  let subgalleries1 :=
    match subgalleries !! subgallery_path with
    | None => <[subgallery_path := ∅]> subgalleries
    | Some _ => subgalleries
    end in
  let categories := default ∅ (subgalleries1 !! subgallery_path) in
  let categories1 :=
    match categories !! category with
    | None => <[category := []]> categories
    | Some _ => categories
    end in
  let examples := default [] (categories1 !! category) in
  <[subgallery_path := <[category := examples ++ [data]]> categories1]>
    subgalleries1.

(** The line printed for a directory that is processed.  The names the
    walk yields are taken to be text that standard output can encode, so
    this line, like the constant ones, is emitted without failure. *)
Definition processing_line (subdir : pystr) : event :=
  Print (lit "processing: " ++ subdir).

Definition conf_path (subdir : pystr) : pystr :=
  Posixpath.join subdir (lit "conf.yaml").

(** One iteration: [entry] is the [(subdir, files)] part of what
    [os.walk] yields. *)
Definition process_directory (E : env) (entry : pystr * list pystr)
  (subgalleries : index) : M index :=
  let subdir := entry.1 in
  if bool_decide (lit "conf.yaml" ∈ entry.2) then
    do _ <- emit (processing_line subdir);
    let conf := conf_path subdir in
    do data <- build_example_page E subdir conf;
    match data with
    | Some data =>
        do data <- copy_static E subdir data;
        ret (file_record subdir data subgalleries)
    | None => ret subgalleries
    end
  else ret subgalleries.

Fixpoint traverse (E : env) (walk : list (pystr * list pystr))
  (subgalleries : index) : M index :=
  match walk with
  | [] => ret subgalleries
  | entry :: rest =>
      do subgalleries <- process_directory E entry subgalleries;
      traverse E rest subgalleries
  end.

(** The examples filed under a sub-gallery and a category. *)
Definition filed (subgalleries : index) (subgallery category : pystr)
  : list record :=
  default [] (default ∅ (subgalleries !! subgallery) !! category).

(* ================================================================== *)
(** ** The sub-gallery pages and the homepage *)

Definition source_dir : pystr := lit "./source".

Definition k_galleries : pystr := lit "galleries".
Definition k_gallery_path : pystr := lit "gallery_path".
Definition k_display_name : pystr := lit "display_name".
Definition k_gallery_title : pystr := lit "gallery_title".
Definition k_categories : pystr := lit "categories".

Definition gallery_template : pystr :=
  Posixpath.join template_dir (lit "gallery.rst").

Definition homepage_template : pystr :=
  Posixpath.join template_dir (lit "homepage.rst").

(** [for v in x]: the values a loop over [x] visits.  A mapping yields its
    keys, a string its characters; null, numbers and booleans are not
    iterable. *)
Definition iterate (x : value) : M (list value) :=
  match x with
  | VList l => ret l
  | VDict d => ret (VStr <$> (map_to_list d).*1)
  | VStr s => ret ((fun c => VStr [c]) <$> s)
  | _ => raise TypeError
  end.

(** [sub == x] for a string [sub]. *)
Definition str_eq (sub : pystr) (x : value) : bool :=
  match x with
  | VStr s => bool_decide (sub = s)
  | _ => false
  end.

(** The loop that looks the title up: the value of [title] when the loop
    ends, [None] when no entry matched. *)
Fixpoint find_title (sub : pystr) (galleries : list value) : M value :=
  match galleries with
  | [] => ret VNone
  | v :: rest =>
      do path <- subscript v k_gallery_path;
      if str_eq sub path then subscript v k_display_name
      else find_title sub rest
  end.

Definition default_title (sub : pystr) : pystr :=
  Posixpath.basename sub ++ lit " Gallery".

(** The title of a sub-gallery page. *)
Definition gallery_title (sub : pystr) (yaml_data : value) : M value :=
  do galleries <- subscript yaml_data k_galleries;
  do entries <- iterate galleries;
  do title <- find_title sub entries;
  ret (if is_none title then VStr (default_title sub) else title).

(** [base64.b64encode(subname.encode()).decode()]. *)
Definition gallery_label (sub : pystr) : M pystr :=
  match utf8_encode (Posixpath.basename sub) with
  | Some bs => ret (Base64.b64encode bs)
  | None => raise UnicodeEncodeError
  end.

(** The category mapping as the template receives it. *)
Definition categories_value (sub_data : gmap pystr (list record)) : value :=
  VDict ((fun l => VList (VDict <$> l)) <$> sub_data).

Definition gallery_page_data (id : pystr) (title : value)
  (sub_data : gmap pystr (list record)) : record :=
  <[k_label := VStr id]>
    (<[k_gallery_title := title]>
       (<[k_categories := categories_value sub_data]> ∅)).

(** One iteration of the loop over [subgalleries.items()]. *)
Definition build_gallery_page (E : env) (yaml_data : value)
  (gallery_labels : gmap pystr pystr)
  (item : pystr * gmap pystr (list record)) : M (gmap pystr pystr) :=
  let sub := item.1 in
  do id <- gallery_label sub;
  let gallery_labels := <[sub := id]> gallery_labels in
  do title <- gallery_title sub yaml_data;
  do _ <- render_page E gallery_template
            (gallery_page_data id title item.2)
            (Posixpath.join sub (lit "index.rst"));
  ret gallery_labels.

Fixpoint build_gallery_pages (E : env) (yaml_data : value)
  (gallery_labels : gmap pystr pystr)
  (items : list (pystr * gmap pystr (list record)))
  : M (gmap pystr pystr) :=
  match items with
  | [] => ret gallery_labels
  | item :: rest =>
      do gallery_labels <- build_gallery_page E yaml_data gallery_labels item;
      build_gallery_pages E yaml_data gallery_labels rest
  end.

(** [x in gallery_labels]: a sequence or a mapping cannot be hashed; the
    keys are strings, so nothing but a string is found. *)
Definition label_of (gallery_labels : gmap pystr pystr) (x : value)
  : M (option pystr) :=
  match x with
  | VStr p => ret (gallery_labels !! p)
  | VList _ | VDict _ => raise TypeError
  | _ => ret None
  end.

(** [v["label"] = id]. *)
Definition set_label (v : value) (id : pystr) : M value :=
  match v with
  | VDict d => ret (VDict (<[k_label := VStr id]> d))
  | _ => raise TypeError
  end.

(** The loop that collects the panels of the homepage. *)
Fixpoint homepage_panels (gallery_labels : gmap pystr pystr)
  (galleries : list value) : M (list value) :=
  match galleries with
  | [] => ret []
  | v :: rest =>
      do path <- subscript v k_gallery_path;
      do found <- label_of gallery_labels path;
      match found with
      | Some id =>
          do panel <- set_label v id;
          do panels <- homepage_panels gallery_labels rest;
          ret (panel :: panels)
      | None => homepage_panels gallery_labels rest
      end
  end.

Definition top_conf_path : pystr :=
  Posixpath.join source_dir (lit "conf.yaml").

Definition homepage_path : pystr :=
  Posixpath.join source_dir (lit "index.rst").

(** The part of the main program after the traversal; [items] is
    [subgalleries.items()]. *)
Definition build_site (E : env)
  (items : list (pystr * gmap pystr (list record))) : M unit :=
  do tr <- history;
  do yaml_data <- lift (load_yaml E tr top_conf_path);
  do gallery_labels <- build_gallery_pages E yaml_data ∅ items;
  do galleries <- subscript yaml_data k_galleries;
  do entries <- iterate galleries;
  do panels <- homepage_panels gallery_labels entries;
  render_page E homepage_template
    (<[k_galleries := VList panels]> ∅) homepage_path.


(** *** The order of the keys of [subgalleries]

    A Python dictionary lists its keys in the order they were inserted.
    The only insertion of a sub-gallery key is the one of the traversal
    loop, so the order is recovered from the index before and after each
    iteration. *)
Definition note_key (subdir : pystr) (before after : index)
  (order : list pystr) : list pystr :=
  let key := subgallery_of subdir in
  match before !! key, after !! key with
  | None, Some _ => order ++ [key]
  | _, _ => order
  end.

Fixpoint traverse_ordered (E : env) (walk : list (pystr * list pystr))
  (subgalleries : index) (order : list pystr)
  : M (index * list pystr) :=
  match walk with
  | [] => ret (subgalleries, order)
  | entry :: rest =>
      do after <- process_directory E entry subgalleries;
      traverse_ordered E rest after
        (note_key entry.1 subgalleries after order)
  end.

(** [subgalleries.items()]. *)
Definition items_of (subgalleries : index) (order : list pystr)
  : list (pystr * gmap pystr (list record)) :=
  omap (fun key => (fun v => (key, v)) <$> subgalleries !! key) order.

(** The main program on what [os.walk(args.gallery)] yields. *)
Definition main (E : env) (walk : list (pystr * list pystr)) : M unit :=
  do built <- traverse_ordered E walk ∅ [];
  build_site E (items_of built.1 built.2).

(** Whether the traversal looks into a directory. *)
Definition has_conf (entry : pystr * list pystr) : bool :=
  bool_decide (lit "conf.yaml" ∈ entry.2).

(* ================================================================== *)
(** ** Predicates used in the statements *)

Definition is_dict (v : value) : bool :=
  match v with
  | VDict _ => true
  | _ => false
  end.

Definition is_str (v : value) : bool :=
  match v with
  | VStr _ => true
  | _ => false
  end.

(** Values that can be looked up in a dictionary. *)
Definition hashable (v : value) : bool :=
  match v with
  | VList _ | VDict _ => false
  | _ => true
  end.

(** The characters of base64 text. *)
Definition base64_char (c : N) : bool :=
  match Base64.digit c with
  | Some _ => true
  | None => N.eqb c Base64.pad
  end.

(** A record as the index holds it. *)
Definition record_ok (r : record) : Prop :=
  is_Some (r !! k_label) /\
  (exists s, r !! k_description = Some (VStr s)) /\
  (exists s, r !! k_thumbnail = Some (VStr s)).

(** No grouping of the index is empty, and every record is complete. *)
Definition index_ok (sg : index) : Prop :=
  forall g cats, sg !! g = Some cats ->
    cats <> ∅ /\
    forall c l, cats !! c = Some l -> l <> [] /\ Forall record_ok l.

(** An entry of the top-level list that is about another sub-gallery. *)
Definition other_gallery (sub : pystr) (v : value) : Prop :=
  exists d path, v = VDict d /\ d !! k_gallery_path = Some path /\
    str_eq sub path = false.

(** The panel an entry of the top-level list gives, if it gives one. *)
Definition panel_of (gallery_labels : gmap pystr pystr) (d : record)
  : option value :=
  match d !! k_gallery_path with
  | Some (VStr p) =>
      (fun id => VDict (<[k_label := VStr id]> d)) <$> gallery_labels !! p
  | _ => None
  end.

(** The page of a sub-gallery. *)
Definition is_gallery_page (item : pystr * gmap pystr (list record))
  (ev : event) : Prop :=
  exists bs title,
    utf8_encode (Posixpath.basename item.1) = Some bs /\
    ev = RenderPage gallery_template
           (gallery_page_data (Base64.b64encode bs) title item.2)
           (Posixpath.join item.1 (lit "index.rst")).

(** A panel of the homepage: an entry of the top-level list, with the
    label of the sub-gallery its path names. *)
Definition is_panel (gallery_labels : gmap pystr pystr)
  (entries : list value) (panel : value) : Prop :=
  exists d p id,
    VDict d ∈ entries /\
    d !! k_gallery_path = Some (VStr p) /\
    gallery_labels !! p = Some id /\
    panel = VDict (<[k_label := VStr id]> d).

(** The homepage. *)
Definition homepage_page (panels : list value) : event :=
  RenderPage homepage_template (<[k_galleries := VList panels]> ∅)
    homepage_path.

(** Reading one character back from UTF-8: the character and the bytes
    that follow it. *)
Definition utf8_decode_char (bs : list N) : option (N * list N) :=
  match bs with
  | [] => None
  | b0 :: r0 =>
      if N.ltb b0 128 then Some (b0, r0)
      else if N.ltb b0 224 then
        match r0 with
        | b1 :: r1 =>
            Some (N.lor (N.shiftl (N.land b0 31) 6) (N.land b1 63), r1)
        | _ => None
        end
      else if N.ltb b0 240 then
        match r0 with
        | b1 :: b2 :: r2 =>
            Some (N.lor (N.shiftl
                           (N.lor (N.shiftl (N.land b0 15) 6) (N.land b1 63))
                           6) (N.land b2 63), r2)
        | _ => None
        end
      else
        match r0 with
        | b1 :: b2 :: b3 :: r3 =>
            Some (N.lor (N.shiftl
                    (N.lor (N.shiftl
                              (N.lor (N.shiftl (N.land b0 7) 6)
                                     (N.land b1 63))
                              6) (N.land b2 63))
                    6) (N.land b3 63), r3)
        | _ => None
        end
  end.

(* ================================================================== *)
(** ** Concrete scenarios *)

(** A relative path without its leading [./]. *)
Definition strip_dot (p : pystr) : pystr :=
  match p with
  | 46 :: 47 :: r => r
  | _ => p
  end.

(** A lone surrogate: a character UTF-8 cannot encode. *)
Definition is_surrogate (c : N) : bool := N.leb 55296 c && N.leb c 57343.

(** A world given by tables: the configuration files, the answers of the
    metadata service, the files that exist.  The working directory is
    [/work]; nothing fails to be written; standard output is UTF-8. *)
Definition scenario (confs : list (pystr * value))
  (remote : list (pystr * response)) (existing : list pystr) : env :=
  {| repr_other := fun _ => lit "<object>";
     abspath := fun p => Posixpath.join (lit "/work") (strip_dot p);
     http_get := fun _ url =>
       (list_to_map remote : gmap pystr response) !! url;
     load_yaml := fun _ p =>
       match (list_to_map confs : gmap pystr value) !! p with
       | Some v => Ok v
       | None => Raise (OSError 2)
       end;
     path_exists := fun _ p => bool_decide (p ∈ existing);
     write_error := fun _ _ => None;
     render_error := fun _ _ _ _ => None;
     copy_error := fun _ _ _ => None;
     print_error := fun _ line =>
       if existsb is_surrogate line then Some UnicodeEncodeError
       else None |}.

(** [{title: "Demo", description: "Line1\r\nLine2"}]. *)
Definition conf_demo : record :=
  <[k_title := VStr (lit "Demo")]>
    (<[k_description := VStr (lit "Line1" ++ [CR; LF] ++ lit "Line2")]> ∅).

(** A configuration without a description. *)
Definition conf_no_description : record :=
  <[k_title := VStr (lit "Broken")]> ∅.

(** A configuration whose label is given as null. *)
Definition conf_null_label : record :=
  <[k_label := VNone]> conf_demo.

(** A configuration that names a remote resource. *)
Definition conf_remote : record :=
  <[k_hydroshare := VDict (<[k_id := VStr (lit "abc123")]> ∅)]> conf_demo.


(** A configuration whose remote identifier is a lone surrogate:
    [hydroshare: {id: "\ud800"}]. *)
Definition conf_unprintable : record :=
  <[k_hydroshare := VDict (<[k_id := VStr [55296]]> ∅)]> conf_demo.

Definition ex1 : pystr := lit "./source/gallery/sub/cat/ex1".
Definition ex2 : pystr := lit "./source/gallery/sub/cat/ex2".

Definition walk_two : list (pystr * list pystr) :=
  [(ex1, [lit "conf.yaml"]); (ex2, [lit "conf.yaml"; lit "notes.txt"])].

(** The first example lacks its description, the second is complete. *)
Definition E_missing : env :=
  scenario [(conf_path ex1, VDict conf_no_description);
            (conf_path ex2, VDict conf_demo)] [] [].

Definition E_demo : env :=
  scenario [(conf_path ex1, VDict conf_demo)] [] [].

Definition E_null_label : env :=
  scenario [(conf_path ex1, VDict conf_null_label)] [] [].

Definition remote_url : pystr :=
  lit "https://hydroshare.org/hsapi/resource/abc123/scimeta".

(** The service answers 404. *)
Definition E_not_found : env :=
  scenario [(conf_path ex1, VDict conf_remote);
            (conf_path ex2, VDict conf_demo)]
           [(remote_url, {| status_code := 404; document := None |})] [].


Definition unprintable_url : pystr :=
  lit "https://hydroshare.org/hsapi/resource/" ++ [55296] ++ lit "/scimeta".

(** The service answers 404 for the identifier that cannot be printed;
    the second example is complete. *)
Definition E_unprintable : env :=
  scenario [(conf_path ex1, VDict conf_unprintable);
            (conf_path ex2, VDict conf_demo)]
           [(unprintable_url, {| status_code := 404; document := None |})] [].

(** The example directory of [ex1], written with a separator at its end. *)
Definition ex1_slash : pystr := ex1 ++ [Posixpath.sep].

(** The service answers with an abstract that holds a non-ASCII letter and
    a line feed: "caf\u00e9" followed by a newline. *)
Definition abstract_cafe : pystr := [99; 97; 102; 233; LF].

Definition scimeta_cafe : scimeta :=
  {| dc_creators := [];
     dc_title := Some (Some (lit "Coffee"));
     dcterms_abstract := Some (Some abstract_cafe);
     dc_subjects := [] |}.

Definition E_cafe : env :=
  scenario [(conf_path ex1, VDict conf_remote)]
           [(remote_url,
             {| status_code := 200; document := Some scimeta_cafe |})] [].

(** The record fetched in [E_cafe]. *)
Definition record_cafe : record :=
  <[k_description := VStr (lit "caf" ++ [LF])]>
    (<[k_title := VStr (lit "Coffee")]> (<[k_authors := VList []]> ∅)).

(** A built record that names a thumbnail, in a world where the file
    exists. *)
Definition record_thumbnail : record :=
  <[k_thumbnail := VStr (lit "thumb.png")]>
    (<[k_label := VStr (lit "RGVtbw==")]> conf_demo).

Definition E_thumbnail : env :=
  scenario [] [] [lit "/work/source/gallery/sub/cat/ex1/thumb.png"].

(** A top-level configuration: the sub-gallery of the examples, and one
    that has no example. *)
Definition gallery_sub : pystr := lit "./source/gallery/sub".

Definition entry_sub : record :=
  <[k_gallery_path := VStr gallery_sub]>
    (<[k_display_name := VStr (lit "Worked examples")]> ∅).

Definition entry_empty : record :=
  <[k_gallery_path := VStr (lit "./source/gallery/empty")]>
    (<[k_display_name := VStr (lit "Nothing yet")]> ∅).

Definition top_conf : record :=
  <[k_galleries := VList [VDict entry_empty; VDict entry_sub]]> ∅.

Definition E_site : env :=
  scenario [(conf_path ex1, VDict conf_demo);
            (conf_path ex2, VDict conf_demo);
            (top_conf_path, VDict top_conf)] [] [].

(** The same examples without a top-level configuration file. *)
Definition E_no_top : env :=
  scenario [(conf_path ex1, VDict conf_demo);
            (conf_path ex2, VDict conf_demo)] [] [].

(** A top-level configuration without its list. *)
Definition E_no_galleries : env :=
  scenario [(top_conf_path, VDict ∅)] [] [].

(** A configuration whose thumbnail is null. *)
Definition conf_null_thumbnail : record :=
  <[k_thumbnail := VNone]> conf_demo.

Definition E_null_thumbnail : env :=
  scenario [(conf_path ex1, VDict conf_null_thumbnail)] [] [].

(** A configuration file that is empty. *)
Definition E_empty_conf : env :=
  scenario [(conf_path ex1, VNone)] [] [].

(** A document with two creators and two subjects. *)
Definition creator_ada : creator_terms :=
  {| hs_name := Some (Some (lit "Ada"));
     hs_organization := None;
     hs_email := Some (Some (lit "ada@example.org"));
     hs_description := Some (Some (lit "/user/1/")) |}.

Definition creator_bob : creator_terms :=
  {| hs_name := Some (Some (lit "Bob"));
     hs_organization := Some (Some (lit "Lab"));
     hs_email := None;
     hs_description := None |}.

Definition scimeta_full : scimeta :=
  {| dc_creators := [Some creator_ada; Some creator_bob];
     dc_title := Some (Some (lit "Flow"));
     dcterms_abstract := Some (Some (lit "Rivers"));
     dc_subjects := [Some (lit "water"); Some (lit "model")] |}.

Definition E_full : env :=
  scenario [(conf_path ex1, VDict conf_remote)]
           [(remote_url,
             {| status_code := 200; document := Some scimeta_full |})] [].

(** The result of a run, or the empty record. *)
Definition record_of (r : result (option record) * list event) : record :=
  match r.1 with
  | Ok (Some d) => d
  | _ => ∅
  end.

(** The fetch in [E_full]. *)
Definition run_full : result (option record) * list event :=
  get_metadata_from_hs E_full (VStr (lit "abc123")) [].

(** A configuration with a label of its own and a remote resource. *)
Definition conf_labelled : record :=
  <[k_label := VStr (lit "mine")]> conf_remote.


(** What a traversal with its key order ended with. *)
Definition ordered_of (r : result (index * list pystr) * list event)
  : index * list pystr :=
  match r.1 with
  | Ok built => built
  | Raise _ => (∅, [])
  end.

(** The index an iteration or a traversal ended with. *)
Definition index_of (r : result index * list event) : index :=
  match r.1 with
  | Ok sg => sg
  | Raise _ => ∅
  end.

(* ================================================================== *)
(** * Properties *)

(** ** Bit arithmetic on octets *)

Lemma shiftr_div (a k : N) : N.shiftr a k = a / 2 ^ k.
Proof. apply N.shiftr_div_pow2. Qed.

Lemma shiftl_mul (a k : N) : N.shiftl a k = a * 2 ^ k.
Proof. apply N.shiftl_mul_pow2. Qed.

Lemma land_3 (a : N) : N.land a 3 = a mod 4.
Proof. change 3 with (N.ones 2). by rewrite N.land_ones. Qed.

Lemma land_15 (a : N) : N.land a 15 = a mod 16.
Proof. change 15 with (N.ones 4). by rewrite N.land_ones. Qed.

Lemma land_63 (a : N) : N.land a 63 = a mod 64.
Proof. change 63 with (N.ones 6). by rewrite N.land_ones. Qed.

(** Or-ing below a shifted value adds. *)
Lemma lor_low_add (x y m k : N) :
  m = 2 ^ k -> y < m -> N.lor (x * m) y = x * m + y.
Proof.
  intros -> Hy.
  assert (Hdisj : N.land (x * 2 ^ k) y = 0).
  { destruct (N.eq_0_gt_0_cases y) as [-> | Hpos]; [apply N.land_0_r|].
    apply N.bits_inj_0. intros n. rewrite N.land_spec.
    destruct (N.lt_ge_cases n k) as [Hn | Hn].
    - by rewrite N.mul_pow2_bits_low.
    - rewrite (N.bits_above_log2 y n), andb_false_r; [done|].
      apply N.log2_lt_pow2 in Hy; [lia | done]. }
  rewrite <- (N.lxor_lor _ _ Hdisj). symmetry. by apply N.add_nocarry_lxor.
Qed.

Lemma lor_lt_pow2 (a b k : N) :
  a < 2 ^ k -> b < 2 ^ k -> N.lor a b < 2 ^ k.
Proof.
  intros Ha Hb.
  destruct (N.eq_0_gt_0_cases a) as [-> | Ha0]; [by rewrite N.lor_0_l|].
  destruct (N.eq_0_gt_0_cases b) as [-> | Hb0]; [by rewrite N.lor_0_r|].
  assert (0 < N.lor a b).
  { destruct (N.eq_0_gt_0_cases (N.lor a b)) as [H0 | H0]; [|done].
    apply N.lor_eq_0_l in H0. lia. }
  apply N.log2_lt_pow2; [done|]. rewrite N.log2_lor.
  apply N.log2_lt_pow2 in Ha, Hb; [lia | done | done].
Qed.

Lemma joined_div (x y m : N) : y < m -> (x * m + y) / m = x.
Proof.
  intros Hy. rewrite N.div_add_l by lia. rewrite N.div_small by done. lia.
Qed.

Lemma joined_mod (x y m : N) : y < m -> (x * m + y) mod m = y.
Proof.
  intros Hy. rewrite N.add_comm, N.Div0.mod_add. by apply N.mod_small.
Qed.

Lemma div_lt_256 (a m n : N) : a < 256 -> m * n = 256 -> a / m < n.
Proof.
  intros Ha Hmn. apply N.Div0.div_lt_upper_bound. lia.
Qed.

Lemma mod_lt_pos (a m : N) : 0 < m -> a mod m < m.
Proof. intros Hm. apply N.mod_lt. lia. Qed.

Lemma div_mod_join (a m : N) : a / m * m + a mod m = a.
Proof. rewrite (N.Div0.div_mod a m) at 3. lia. Qed.

Ltac to_arith :=
  rewrite ?shiftr_div, ?shiftl_mul, ?land_3, ?land_15, ?land_63;
  change (2 ^ 2) with 4; change (2 ^ 4) with 16; change (2 ^ 6) with 64.

(** The four digits of three octets, and the octets read back from them. *)
Lemma octet_group (a b c : N) :
  a < 256 -> b < 256 -> c < 256 ->
  let d0 := N.shiftr a 2 in
  let d1 := N.lor (N.shiftl (N.land a 3) 4) (N.shiftr b 4) in
  let d2 := N.lor (N.shiftl (N.land b 15) 2) (N.shiftr c 6) in
  let d3 := N.land c 63 in
  (d0 < 64 /\ d1 < 64 /\ d2 < 64 /\ d3 < 64) /\
  N.lor (N.shiftl d0 2) (N.shiftr d1 4) = a /\
  N.lor (N.shiftl (N.land d1 15) 4) (N.shiftr d2 2) = b /\
  N.lor (N.shiftl (N.land d2 3) 6) d3 = c.
Proof.
  intros Ha Hb Hc. cbv zeta. to_arith.
  assert (Ha4 : a / 4 < 64) by (by apply div_lt_256).
  assert (Hb16 : b / 16 < 16) by (by apply div_lt_256).
  assert (Hc64 : c / 64 < 4) by (by apply div_lt_256).
  assert (Ham : a mod 4 < 4) by (by apply mod_lt_pos).
  assert (Hbm : b mod 16 < 16) by (by apply mod_lt_pos).
  assert (Hcm : c mod 64 < 64) by (by apply mod_lt_pos).
  rewrite (lor_low_add (a mod 4) (b / 16) 16 4) by done.
  rewrite (lor_low_add (b mod 16) (c / 64) 4 2) by done.
  rewrite (joined_div (a mod 4)), (joined_mod (a mod 4)) by done.
  rewrite (joined_div (b mod 16)), (joined_mod (b mod 16)) by done.
  rewrite (lor_low_add (a / 4) _ 4 2) by done.
  rewrite (lor_low_add (b / 16) _ 16 4) by done.
  rewrite (lor_low_add (c / 64) _ 64 6) by done.
  rewrite !div_mod_join. repeat split; lia.
Qed.

(** ** base64 *)

Ltac case_cmp :=
  repeat match goal with
    | |- context [N.ltb ?a ?b] => destruct (N.ltb_spec a b)
    | |- context [N.leb ?a ?b] => destruct (N.leb_spec a b)
    | |- context [N.eqb ?a ?b] => destruct (N.eqb_spec a b)
    end; simpl.

Lemma digit_alphabet (d : N) :
  d < 64 -> Base64.digit (Base64.alphabet d) = Some d.
Proof.
  intros Hd. unfold Base64.alphabet.
  destruct (N.ltb_spec d 26); [|destruct (N.ltb_spec d 52);
    [|destruct (N.ltb_spec d 62); [|destruct (N.eqb_spec d 62)]]];
    unfold Base64.digit; case_cmp; try lia; f_equal; lia.
Qed.

Lemma alphabet_not_pad (d : N) :
  N.eqb (Base64.alphabet d) Base64.pad = false.
Proof.
  apply N.eqb_neq. unfold Base64.alphabet, Base64.pad. case_cmp; lia.
Qed.

Lemma b64_group3 (a b c : N) (cs : list N) (tl : list N) :
  a < 256 -> b < 256 -> c < 256 ->
  Base64.b64decode cs = Some tl ->
  Base64.b64decode
    (Base64.alphabet (N.shiftr a 2)
     :: Base64.alphabet (N.lor (N.shiftl (N.land a 3) 4) (N.shiftr b 4))
     :: Base64.alphabet (N.lor (N.shiftl (N.land b 15) 2) (N.shiftr c 6))
     :: Base64.alphabet (N.land c 63) :: cs)
  = Some (a :: b :: c :: tl).
Proof.
  intros Ha Hb Hc Htl.
  destruct (octet_group a b c Ha Hb Hc) as ((H0 & H1 & H2 & H3) & Ea & Eb & Ec).
  cbn [Base64.b64decode].
  rewrite !digit_alphabet, !alphabet_not_pad, Htl by done.
  by rewrite Ea, Eb, Ec.
Qed.

Lemma b64_group2 (a b : N) :
  a < 256 -> b < 256 ->
  Base64.b64decode (Base64.b64encode [a; b]) = Some [a; b].
Proof.
  intros Ha Hb.
  destruct (octet_group a b 0 Ha Hb eq_refl) as ((H0 & H1 & H2 & _) & Ea & Eb & _).
  change (N.shiftr 0 6) with 0 in *. rewrite N.lor_0_r in H2, Eb.
  cbn [Base64.b64decode Base64.b64encode].
  rewrite !digit_alphabet, ?alphabet_not_pad by done.
  rewrite ?N.eqb_refl. by rewrite Ea, Eb.
Qed.

Lemma b64_group1 (a : N) :
  a < 256 ->
  Base64.b64decode (Base64.b64encode [a]) = Some [a].
Proof.
  intros Ha.
  destruct (octet_group a 0 0 Ha eq_refl eq_refl) as ((H0 & H1 & _) & Ea & _).
  change (N.shiftr 0 4) with 0 in *. rewrite N.lor_0_r in H1, Ea.
  cbn [Base64.b64decode Base64.b64encode].
  rewrite !digit_alphabet by done.
  rewrite ?N.eqb_refl. by rewrite Ea.
Qed.

(** Decoding inverts encoding on every sequence of octets. *)
Lemma b64decode_b64encode (bs : list N) :
  octets bs -> Base64.b64decode (Base64.b64encode bs) = Some bs.
Proof.
  remember (length bs) as n eqn:Hn. revert bs Hn.
  induction (lt_wf n) as [n _ IH]. intros bs -> Hbs.
  destruct bs as [|a [|b [|c rest]]].
  - done.
  - apply b64_group1. by inversion Hbs.
  - inversion Hbs as [|?? Ha Hr]; inversion Hr; subst. by apply b64_group2.
  - inversion Hbs as [|?? Ha Hr]; inversion Hr as [|?? Hb Hr'];
      inversion Hr' as [|?? Hc Hrest]; subst.
    change (Base64.b64encode (a :: b :: c :: rest)) with
      (Base64.alphabet (N.shiftr a 2)
       :: Base64.alphabet (N.lor (N.shiftl (N.land a 3) 4) (N.shiftr b 4))
       :: Base64.alphabet (N.lor (N.shiftl (N.land b 15) 2) (N.shiftr c 6))
       :: Base64.alphabet (N.land c 63) :: Base64.b64encode rest).
    apply b64_group3; [done..|].
    apply (IH (length rest)); [simpl; lia | done | done].
Qed.

(** ** UTF-8 *)

Lemma lor_octet (a b : N) : a < 256 -> b < 256 -> N.lor a b < 256.
Proof. apply (lor_lt_pow2 a b 8). Qed.

Lemma land_63_octet (a : N) : N.lor 128 (N.land a 63) < 256.
Proof.
  apply lor_octet; [done|]. rewrite land_63.
  pose proof (mod_lt_pos a 64 eq_refl). lia.
Qed.

Lemma utf8_encode_char_octets (c : N) (bs : list N) :
  utf8_encode_char c = Some bs -> octets bs.
Proof.
  unfold utf8_encode_char, octets.
  destruct (N.ltb_spec c 128) as [H1|H1].
  { intros [= <-]. repeat constructor. lia. }
  destruct (N.ltb_spec c 2048) as [H2|H2].
  { intros [= <-]. repeat constructor; [|apply land_63_octet].
    apply lor_octet; [done|]. rewrite shiftr_div.
    apply N.Div0.div_lt_upper_bound. change (2 ^ 6) with 64. lia. }
  destruct (N.ltb_spec c 65536) as [H3|H3].
  { destruct (_ && _); [done|]. intros [= <-].
    repeat constructor; try apply land_63_octet.
    apply lor_octet; [done|]. rewrite shiftr_div.
    apply N.Div0.div_lt_upper_bound. change (2 ^ 12) with 4096. lia. }
  destruct (N.ltb_spec c 1114112) as [H4|H4]; [|done].
  intros [= <-]. repeat constructor; try apply land_63_octet.
  apply lor_octet; [done|]. rewrite shiftr_div.
  apply N.Div0.div_lt_upper_bound. change (2 ^ 18) with 262144. lia.
Qed.

Lemma utf8_encode_octets (s : pystr) (bs : list N) :
  utf8_encode s = Some bs -> octets bs.
Proof.
  revert bs. induction s as [|c r IH]; intros bs; simpl.
  - intros [= <-]. constructor.
  - destruct (utf8_encode_char c) as [cb|] eqn:Hc; [|done].
    destruct (utf8_encode r) as [rb|]; [|done]. intros [= <-].
    apply Forall_app. split; [by eapply utf8_encode_char_octets | by apply IH].
Qed.

(** ** Cleaning the description *)

Lemma replace_char_absent (old : N) (new s : pystr) :
  old ∉ s -> replace_char old new s = s.
Proof.
  unfold replace_char. induction s as [|c r IH]; [done|].
  intros Hnot. apply not_elem_of_cons in Hnot as [Hc Hr]. simpl.
  destruct (N.eqb_spec c old); [congruence|]. by rewrite IH.
Qed.

Lemma replace_char_elem (old : N) (new s : pystr) (x : N) :
  x ∈ replace_char old new s -> x ∈ new \/ (x ∈ s /\ x <> old).
Proof.
  unfold replace_char. induction s as [|c r IH]; simpl.
  - by intros ?%elem_of_nil.
  - intros [Hx | Hx]%elem_of_app.
    + destruct (N.eqb_spec c old); [by left|].
      apply list_elem_of_singleton in Hx as ->. right. split; [left|done].
    + destruct (IH Hx) as [? | [? ?]]; [by left|]. right. split; [by right|done].
Qed.

Lemma clean_description_no_LF (s : pystr) : LF ∉ clean_description s.
Proof.
  unfold clean_description.
  intros [H | [[H | [_ H]]%replace_char_elem _]]%replace_char_elem.
  - vm_compute in H. by repeat (apply elem_of_cons in H as [H | H]; [done|]);
      apply elem_of_nil in H.
  - by apply elem_of_nil in H.
  - done.
Qed.

Lemma clean_description_no_CR (s : pystr) : CR ∉ clean_description s.
Proof.
  unfold clean_description.
  intros [H | [_ H]]%replace_char_elem; [|done].
  vm_compute in H. by repeat (apply elem_of_cons in H as [H | H]; [done|]);
      apply elem_of_nil in H.
Qed.

Lemma clean_description_idemp (s : pystr) :
  clean_description (clean_description s) = clean_description s.
Proof.
  unfold clean_description at 1.
  rewrite (replace_char_absent LF) by apply clean_description_no_LF.
  apply replace_char_absent, clean_description_no_CR.
Qed.

(** ** posixpath *)

Section posixpath.
Import Posixpath.

Lemma Posixpath_rfind_sep_succ_none (p : pystr) : sep ∉ p -> rfind_sep_succ p = O.
Proof.
  induction p as [|c r IH]; [done|].
  intros [Hc Hr]%not_elem_of_cons. simpl. rewrite (IH Hr).
  destruct (N.eqb_spec c sep); congruence.
Qed.

Lemma Posixpath_rfind_sep_succ_app (a b : pystr) :
  sep ∉ b -> rfind_sep_succ (a ++ sep :: b) = S (length a).
Proof.
  intros Hb. induction a as [|x a IH]; simpl.
  - by rewrite (Posixpath_rfind_sep_succ_none b Hb).
  - by rewrite IH.
Qed.

Lemma Posixpath_basename_app (a b : pystr) :
  sep ∉ b -> basename (a ++ sep :: b) = b.
Proof.
  intros Hb. unfold basename. rewrite (Posixpath_rfind_sep_succ_app a b Hb).
  change (a ++ sep :: b) with (a ++ [sep] ++ b). rewrite app_assoc.
  rewrite drop_app_length'; [done|]. rewrite length_app. simpl. lia.
Qed.

Lemma Posixpath_rstrip_sep_snoc_sep (a : pystr) :
  rstrip_sep (a ++ [sep]) = rstrip_sep a.
Proof. induction a as [|x a IH]; simpl; [done|]. by rewrite IH. Qed.

Lemma Posixpath_rstrip_sep_snoc (a : pystr) (c : N) :
  c <> sep -> rstrip_sep (a ++ [c]) = a ++ [c].
Proof.
  intros Hc. induction a as [|x a IH]; simpl.
  - destruct (N.eqb_spec c sep); congruence.
  - rewrite IH. by destruct a.
Qed.

Lemma Posixpath_all_sep_snoc (a : pystr) (c : N) :
  c <> sep -> all_sep (a ++ [c]) = false.
Proof.
  intros Hc. unfold all_sep. rewrite forallb_app. cbn [forallb].
  destruct (N.eqb_spec sep c); [congruence|]. apply andb_false_r.
Qed.

Lemma Posixpath_is_name_snoc (p : pystr) :
  is_name p -> exists q c, p = q ++ [c] /\ c <> sep.
Proof.
  intros [Hne Hsep]. destruct (last p) as [c|] eqn:Hlast.
  - apply last_Some in Hlast as [q ->]. exists q, c. split; [done|].
    intros ->. apply Hsep. set_solver.
  - apply last_None in Hlast. congruence.
Qed.

(** The directory part of [a/b] when [a] ends with a name and [b] has no
    separator. *)
Lemma Posixpath_dirname_app (a b n : pystr) :
  is_name n -> sep ∉ b -> dirname ((a ++ n) ++ sep :: b) = a ++ n.
Proof.
  intros (q & c & -> & Hc)%Posixpath_is_name_snoc Hb. unfold dirname.
  rewrite Posixpath_rfind_sep_succ_app by done.
  change ((a ++ q ++ [c]) ++ sep :: b) with ((a ++ q ++ [c]) ++ [sep] ++ b).
  rewrite (app_assoc (a ++ q ++ [c]) [sep] b).
  rewrite take_app_length'; [|rewrite (length_app _ [sep]); simpl; lia].
  destruct ((a ++ q ++ [c]) ++ [sep]) as [|x r] eqn:E.
  { by destruct (a ++ q ++ [c]). }
  rewrite <- E. clear E.
  assert (Hall : all_sep ((a ++ q ++ [c]) ++ [sep]) = false).
  { unfold all_sep. rewrite forallb_app.
    rewrite (app_assoc a q [c]). fold (all_sep ((a ++ q) ++ [c])).
    by rewrite Posixpath_all_sep_snoc. }
  rewrite Hall, Posixpath_rstrip_sep_snoc_sep.
  by rewrite (app_assoc a q [c]), Posixpath_rstrip_sep_snoc.
Qed.

End posixpath.

(** ** Filing a record *)

Lemma file_record_insert (subdir : pystr) (data : record) (sg : index) :
  file_record subdir data sg =
  <[subgallery_of subdir :=
      <[category_of subdir :=
          filed sg (subgallery_of subdir) (category_of subdir) ++ [data]]>
        (default ∅ (sg !! subgallery_of subdir))]> sg.
Proof.
  unfold file_record, filed.
  destruct (sg !! subgallery_of subdir) as [cats|] eqn:Hsg; simpl.
  - rewrite Hsg. simpl.
    destruct (cats !! category_of subdir) as [l|] eqn:Hcat; simpl.
    + by rewrite Hcat.
    + by rewrite lookup_insert_eq, insert_insert_eq.
  - rewrite lookup_insert_eq. simpl. rewrite lookup_empty. simpl.
    by rewrite lookup_insert_eq, !insert_insert_eq.
Qed.

Lemma filed_file_record (subdir : pystr) (data : record) (sg : index)
  (g c : pystr) :
  filed (file_record subdir data sg) g c =
  if bool_decide (g = subgallery_of subdir /\ c = category_of subdir)
  then filed sg g c ++ [data] else filed sg g c.
Proof.
  rewrite file_record_insert. unfold filed at 1.
  destruct (decide (g = subgallery_of subdir)) as [-> | Hg].
  - rewrite lookup_insert_eq. simpl.
    destruct (decide (c = category_of subdir)) as [-> | Hc].
    + rewrite lookup_insert_eq. simpl. by rewrite bool_decide_eq_true_2.
    + rewrite lookup_insert_ne by done.
      rewrite bool_decide_eq_false_2; [done | by intros [_ ?]].
  - rewrite lookup_insert_ne by done.
    rewrite bool_decide_eq_false_2; [done | by intros [? _]].
Qed.

(** ** The monad and the keys *)

Ltac unfold_monad :=
  unfold perform in *;
  unfold bind, ret, raise, emit, history, lift, try_except in *;
  cbn beta in *.

Ltac key_neq := let H := fresh in intros H; vm_compute in H; discriminate H.

Ltac case_print :=
  simpl;
  match goal with
  | |- context [print_error ?E ?t ?l] => destruct (print_error E t l)
  end.

Lemma getitem_Some (d : record) (k : pystr) (v : value) (tr : list event) :
  d !! k = Some v -> getitem d k tr = (Ok v, tr).
Proof. unfold getitem. by intros ->. Qed.

Lemma getitem_None (d : record) (k : pystr) (tr : list event) :
  d !! k = None -> getitem d k tr = (Raise (KeyError k), tr).
Proof. unfold getitem. by intros ->. Qed.

Lemma getitem_inv (d : record) (k : pystr) (r : result value)
  (tr tr' : list event) :
  getitem d k tr = (r, tr') ->
  tr' = tr /\
  match d !! k with
  | Some v => r = Ok v
  | None => r = Raise (KeyError k)
  end.
Proof. unfold getitem. destruct (d !! k); by intros [= <- <-]. Qed.

(** ** The Static Asset Relocator *)

Section copy_static.
Context (E : env).

Lemma use_default_thumbnail_run (data : record) (tr : list event) :
  use_default_thumbnail data tr =
  (Ok (<[k_thumbnail := VStr default_thumbnail]> data),
   tr ++ [warn_missing_thumbnail]).
Proof. done. Qed.

(** C9. A record without a [thumbnail] key, or whose thumbnail names a
    file that does not exist, gets the default asset name; the only effect
    is the warning, so no file is copied. *)
Theorem copy_static_missing_thumbnail (subdir : pystr) (data : record)
  (tr : list event) :
  (data !! k_thumbnail = None \/
   exists p, data !! k_thumbnail = Some (VStr p) /\
     path_exists E tr (abspath E (Posixpath.join subdir p)) = false) ->
  copy_static E subdir data tr =
  (Ok (<[k_thumbnail := VStr default_thumbnail]> data),
   tr ++ [warn_missing_thumbnail]).
Proof.
  intros [Hnone | (p & Hp & Hex)]; unfold copy_static.
  - by rewrite Hnone.
  - rewrite Hp. unfold bind at 1, history. by rewrite Hex.
Qed.

(** What a successful call returns: the record with its [thumbnail]
    replaced by a string. *)
Lemma copy_static_ok (subdir : pystr) (data data' : record)
  (tr tr' : list event) :
  copy_static E subdir data tr = (Ok data', tr') ->
  exists name, data' = <[k_thumbnail := VStr name]> data.
Proof.
  unfold copy_static. intros Hrun.
  destruct (data !! k_thumbnail) as [[]|] eqn:Hth; try done.
  - revert Hrun. unfold_monad.
    destruct (path_exists E tr _).
    + unfold getitem. destruct (data !! k_label) as [label|]; [|done].
      unfold_monad. destruct (copy_error E tr _ _); [done|].
      intros [= <- <-]. eauto.
    + intros [= <- <-]. eauto.
  - injection Hrun as <- <-. eauto.
Qed.

(** X9. A thumbnail that exists is copied to the static directory under
    the name made from the label, and the record refers to that name. *)
Lemma copy_static_relocates (subdir p : pystr) (label : value)
  (data : record) (tr : list event) :
  let src := abspath E (Posixpath.join subdir p) in
  let name := lit "thumbnail-" ++ py_str E label in
  let dst := static_dir ++ lit "/" ++ name in
  data !! k_thumbnail = Some (VStr p) ->
  path_exists E tr src = true ->
  data !! k_label = Some label ->
  copy_error E tr src dst = None ->
  copy_static E subdir data tr =
  (Ok (<[k_thumbnail := VStr name]> data), tr ++ [CopyFile src dst]).
Proof.
  intros src name dst Hth Hex Hl Hcp. unfold copy_static. rewrite Hth.
  unfold bind at 1, history. fold src. rewrite Hex.
  unfold bind at 1. rewrite (getitem_Some _ _ _ _ Hl).
  fold name. fold dst. unfold_monad. by rewrite Hcp.
Qed.

(** C10. The relocator changes nothing but the [thumbnail] entry: every
    other key keeps its value, and none is added or removed. *)
Theorem copy_static_frame (subdir : pystr) (data data' : record)
  (tr tr' : list event) :
  copy_static E subdir data tr = (Ok data', tr') ->
  (forall k, k <> k_thumbnail -> data' !! k = data !! k) /\
  delete k_thumbnail data' = delete k_thumbnail data.
Proof.
  intros (name & ->)%copy_static_ok. split.
  - intros k Hk. by rewrite lookup_insert_ne.
  - by rewrite delete_insert_eq.
Qed.

End copy_static.

(** ** The Example Builder: label and description *)

Lemma replace_in_description_run (old : N) (new s : pystr) (data : record)
  (tr : list event) :
  data !! k_description = Some (VStr s) ->
  replace_in_description old new data tr =
  (Ok (<[k_description := VStr (replace_char old new s)]> data), tr).
Proof.
  intros Hd. unfold replace_in_description, bind.
  by rewrite (getitem_Some _ _ _ _ Hd).
Qed.

Lemma normalize_description_run (s : pystr) (data : record)
  (tr : list event) :
  data !! k_description = Some (VStr s) ->
  normalize_description data tr =
  (Ok (<[k_description := VStr (clean_description s)]> data), tr).
Proof.
  intros Hd. unfold normalize_description, bind.
  rewrite (replace_in_description_run _ _ s) by done.
  rewrite (replace_in_description_run _ _ (replace_char LF [] s))
    by apply lookup_insert_eq.
  by rewrite insert_insert_eq.
Qed.

Lemma normalize_description_inv (data : record) (r : result record)
  (tr tr' : list event) :
  normalize_description data tr = (r, tr') ->
  tr' = tr /\
  match data !! k_description with
  | Some (VStr s) =>
      r = Ok (<[k_description := VStr (clean_description s)]> data)
  | Some _ => r = Raise AttributeError
  | None => r = Raise (KeyError k_description)
  end.
Proof.
  destruct (data !! k_description) as [v|] eqn:Hd.
  - destruct v as [|s| | | |];
      try (unfold normalize_description, replace_in_description, bind;
           rewrite (getitem_Some _ _ _ _ Hd); by intros [= <- <-]).
    rewrite (normalize_description_run s) by done. by intros [= <- <-].
  - unfold normalize_description, replace_in_description, bind.
    rewrite (getitem_None _ _ _ Hd). by intros [= <- <-].
Qed.

(** C6. Cleaning the description twice gives what cleaning it once gives,
    and the cleaned text holds neither a line feed nor a carriage return. *)
Theorem normalize_description_idempotent (s : pystr) (data : record)
  (tr : list event) :
  let cleaned := <[k_description := VStr (clean_description s)]> data in
  normalize_description (<[k_description := VStr s]> data) tr
    = (Ok cleaned, tr) /\
  normalize_description cleaned tr = (Ok cleaned, tr) /\
  (LF ∉ clean_description s) /\ (CR ∉ clean_description s).
Proof.
  cbv zeta. split_and!.
  - rewrite (normalize_description_run s) by apply lookup_insert_eq.
    by rewrite insert_insert_eq.
  - rewrite (normalize_description_run (clean_description s))
      by apply lookup_insert_eq.
    by rewrite insert_insert_eq, clean_description_idemp.
  - apply clean_description_no_LF.
  - apply clean_description_no_CR.
Qed.


Lemma title_label_inv (data : record) (r : result value)
  (tr tr' : list event) :
  title_label data tr = (r, tr') ->
  tr' = tr /\
  match r with
  | Ok label =>
      exists title bs, data !! k_title = Some (VStr title) /\
        utf8_encode title = Some bs /\ label = VStr (Base64.b64encode bs)
  | Raise _ => True
  end.
Proof.
  unfold title_label, bind, getitem.
  destruct (data !! k_title) as [[|s| | | |]|] eqn:Ht;
    try (by intros [= <- <-]).
  unfold ret, raise.
  destruct (utf8_encode s) as [bs|] eqn:Hbs; intros [= <- <-]; [|done].
  split; [done|]. by exists s, bs.
Qed.

(** The lookup [data['hydroshare']['id']] inside the [try]. *)
Lemma remote_id_lookup (data : record) (tr : list event) :
  bind (getitem data k_hydroshare) (fun hs => subscript hs k_id) tr =
  match remote_id data with
  | Some v => (Ok v, tr)
  | None =>
      (Raise (match data !! k_hydroshare with
              | None => KeyError k_hydroshare
              | Some (VDict _) => KeyError k_id
              | Some _ => TypeError
              end), tr)
  end.
Proof.
  unfold remote_id, bind, getitem, subscript, getitem.
  destruct (data !! k_hydroshare) as [[| | | | |h]|]; try done.
  simpl. by destruct (h !! k_id).
Qed.

Lemma ensure_label_inv (data data' : record) (tr tr' : list event) :
  ensure_label data tr = (Ok data', tr') ->
  tr' = tr /\
  exists label, data' = <[k_label := label]> data /\
    match data !! k_label with
    | Some v => label = v
    | None =>
        match remote_id data with
        | Some v => label = v
        | None =>
            exists title bs, data !! k_title = Some (VStr title) /\
              utf8_encode title = Some bs /\
              label = VStr (Base64.b64encode bs)
        end
    end.
Proof.
  unfold ensure_label.
  destruct (data !! k_label) as [v|] eqn:Hl.
  - intros [= <- <-]. split; [done|]. exists v. by rewrite insert_id.
  - unfold bind at 1, try_except. rewrite remote_id_lookup.
    destruct (remote_id data) as [v|].
    + intros [= <- <-]. split; [done|]. by exists v.
    + destruct (title_label data tr) as [[label|e] tr1] eqn:Ht; [|done].
      apply title_label_inv in Ht as [-> Ht].
      intros [= <- <-]. split; [done|]. by exists label.
Qed.


Lemma ensure_label_trace (data : record) (r : result record)
  (tr tr' : list event) :
  ensure_label data tr = (r, tr') -> tr' = tr.
Proof.
  unfold ensure_label. destruct (data !! k_label); [by intros [= _ <-]|].
  unfold bind at 1, try_except. rewrite remote_id_lookup.
  destruct (remote_id data); [by intros [= _ <-]|].
  destruct (title_label data tr) as [[label|e] tr1] eqn:Ht;
    apply title_label_inv in Ht as [-> _]; by intros [= _ <-].
Qed.

(** ** The Metadata Fetcher *)

Section fetcher.
Context (E : env).

Lemma parse_scimeta_lookup (root : scimeta) (data : record) :
  parse_scimeta E root = Some data ->
  (exists abstract, dcterms_abstract root = Some (Some abstract) /\
     data !! k_description = Some (VStr (encode_ascii_ignore abstract))) /\
  data !! k_label = None /\ data !! k_hydroshare = None.
Proof.
  unfold parse_scimeta.
  destruct (authors_of E _) as [authors|]; [|done].
  destruct (dc_title root) as [title|]; [|done].
  destruct (dcterms_abstract root) as [[abstract|]|]; [|done..].
  destruct (map text_value _); intros [= <-].
  - split; [exists abstract; split; [done|apply lookup_insert_eq]|].
    split; (rewrite !lookup_insert_ne by key_neq; apply lookup_empty).
  - split.
    + exists abstract. split; [done|].
      rewrite lookup_insert_ne by key_neq. apply lookup_insert_eq.
    + split; (rewrite !lookup_insert_ne by key_neq; apply lookup_empty).
Qed.

(** A fetch that returns a record went through every step of the
    [try] body. *)
Lemma get_metadata_from_hs_Some (hsguid : value) (data : record)
  (tr tr' : list event) :
  get_metadata_from_hs E hsguid tr = (Ok (Some data), tr') ->
  exists r root,
    http_get E tr (scimeta_url E hsguid) = Some r /\
    status_code r = 200%Z /\
    document r = Some root /\
    parse_scimeta E root = Some data /\
    tr' = tr ++ [HttpGet (scimeta_url E hsguid)].
Proof.
  unfold get_metadata_from_hs, fetch_scimeta, print_diagnostic.
  unfold_monad.
  destruct (http_get E tr _) as [r|]; [|by case_print].
  destruct (Z.eqb_spec (status_code r) 200) as [Hst|]; [|by case_print].
  simpl.
  destruct (document r) as [root|] eqn:Hdoc; [|by case_print].
  destruct (parse_scimeta E root) as [d|] eqn:Hparse; [|by case_print].
  intros [= <- <-]. by exists r, root.
Qed.

(** A request that raises, a status other than 200, a body that does not
    parse or lacks a field: the fetcher goes to its handler, which prints
    the diagnostic and returns [None], or raises what the print raises. *)
Lemma get_metadata_from_hs_handler (hsguid : value) (tr : list event) :
  match http_get E tr (scimeta_url E hsguid) with
  | None => True
  | Some r =>
      status_code r <> 200%Z \/
      match document r with
      | None => True
      | Some root => parse_scimeta E root = None
      end
  end ->
  get_metadata_from_hs E hsguid tr =
  match print_error E (tr ++ [HttpGet (scimeta_url E hsguid)])
          (fetch_failed_text E hsguid) with
  | None =>
      (Ok None,
       tr ++ [HttpGet (scimeta_url E hsguid)] ++ [fetch_failed_line E hsguid])
  | Some e => (Raise e, tr ++ [HttpGet (scimeta_url E hsguid)])
  end.
Proof.
  unfold get_metadata_from_hs, fetch_scimeta, print_diagnostic.
  unfold_monad. rewrite (app_assoc tr [_] [_]). unfold fetch_failed_line.
  destruct (http_get E tr _) as [r|]; [|by case_print].
  destruct (Z.eqb_spec (status_code r) 200) as [Hst|]; [|by case_print].
  simpl. intros [? | Hdoc]; [done|].
  destruct (document r) as [root|]; [|by case_print].
  rewrite Hdoc. by case_print.
Qed.

Lemma get_metadata_from_hs_fails (hsguid : value) (tr : list event) :
  match http_get E tr (scimeta_url E hsguid) with
  | None => True
  | Some r =>
      status_code r <> 200%Z \/
      match document r with
      | None => True
      | Some root => parse_scimeta E root = None
      end
  end ->
  print_error E (tr ++ [HttpGet (scimeta_url E hsguid)])
    (fetch_failed_text E hsguid) = None ->
  get_metadata_from_hs E hsguid tr =
  (Ok None,
   tr ++ [HttpGet (scimeta_url E hsguid)] ++ [fetch_failed_line E hsguid]).
Proof.
  intros Hfail Hprint. by rewrite get_metadata_from_hs_handler, Hprint.
Qed.

Lemma elem_of_encode_ascii_ignore (c : N) (s : pystr) :
  c ∈ encode_ascii_ignore s <-> c ∈ s /\ c < 128.
Proof.
  unfold encode_ascii_ignore. rewrite !list_elem_of_In, filter_In.
  unfold is_ascii. by rewrite N.ltb_lt.
Qed.

(** C2, as the code has it. The description of a fetched record is the
    abstract with the characters outside ASCII dropped; every ASCII
    character of the abstract, control characters included, is kept. *)
Theorem fetched_description_ascii (hsguid : value) (data : record)
  (tr tr' : list event) :
  get_metadata_from_hs E hsguid tr = (Ok (Some data), tr') ->
  exists r root abstract,
    http_get E tr (scimeta_url E hsguid) = Some r /\
    document r = Some root /\
    dcterms_abstract root = Some (Some abstract) /\
    data !! k_description = Some (VStr (encode_ascii_ignore abstract)) /\
    forall c, c ∈ encode_ascii_ignore abstract <-> c ∈ abstract /\ c < 128.
Proof.
  intros (r & root & Hget & _ & Hdoc & Hparse & _)%get_metadata_from_hs_Some.
  apply parse_scimeta_lookup in Hparse as ((abstract & Ha & Hd) & _).
  exists r, root, abstract. split_and!; try done.
  intros c. apply elem_of_encode_ascii_ignore.
Qed.

End fetcher.

(** ** The Example Builder: merge *)

Lemma merge_metadata_lookup (hsdata : option record) (yaml_data : record)
  (k : pystr) :
  merge_metadata hsdata yaml_data !! k =
  match yaml_data !! k with
  | Some v => Some v
  | None => default ∅ hsdata !! k
  end.
Proof.
  unfold merge_metadata, dict_update. rewrite lookup_union.
  destruct (yaml_data !! k), (default ∅ hsdata !! k); done.
Qed.

Section builder.
Context (E : env).

(** A built record is the merged one with its label ensured and its
    description cleaned, written to the cache and rendered. *)
Lemma finish_example_inv (subdir : pystr) (hsdata : option record)
  (yaml_data : record) (res : option record) (tr tr' : list event) :
  finish_example E subdir hsdata yaml_data tr = (Ok res, tr') ->
  exists labelled s,
    ensure_label (merge_metadata hsdata yaml_data) tr = (Ok labelled, tr) /\
    labelled !! k_description = Some (VStr s) /\
    let data := <[k_description := VStr (clean_description s)]> labelled in
    res = Some data /\
    tr' = tr ++ [WriteCache (Posixpath.join subdir (lit ".cache.yaml")) data;
                 RenderPage landing_template data
                   (Posixpath.join subdir (lit "index.rst"))].
Proof.
  unfold finish_example. unfold bind at 1.
  destruct (ensure_label _ tr) as [[labelled|e] tr1] eqn:Hlab; [|done].
  pose proof (ensure_label_trace _ _ _ _ Hlab) as ->.
  unfold bind at 1.
  destruct (normalize_description labelled tr) as [[data|e] tr1] eqn:Hn;
    [|done].
  apply normalize_description_inv in Hn as [-> Hn].
  destruct (labelled !! k_description) as [[|s| | | |]|] eqn:Hd; try done.
  injection Hn as ->.
  unfold write_yaml_cache, render_page. unfold_monad.
  match goal with
  | |- context [write_error E ?t ?p] => destruct (write_error E t p)
  end; [done|].
  match goal with
  | |- context [render_error E ?t ?a ?b ?c] =>
      destruct (render_error E t a b c)
  end; [done|].
  intros [= <- <-]. exists labelled, s. split_and!; try done.
  by rewrite <- app_assoc.
Qed.

End builder.

Section pipeline.
Context (E : env).

(** C4. In the merged record every key of the local configuration has
    the local value, and a key that only the fetched metadata has keeps
    the fetched value. *)
Theorem local_configuration_wins (hsdata : option record)
  (yaml_data : record) (k : pystr) :
  merge_metadata hsdata yaml_data !! k =
    match yaml_data !! k with
    | Some v => Some v
    | None => default ∅ hsdata !! k
    end.
Proof.
  unfold merge_metadata, dict_update. rewrite lookup_union.
  destruct (yaml_data !! k), (default ∅ hsdata !! k); done.
Qed.

(** Apart from the label and the description, which the builder sets
    afterwards, the built record is the merged one. *)
Lemma built_record_is_merged (subdir : pystr) (hsdata : option record)
  (yaml_data data : record) (k : pystr) (tr tr' : list event) :
  finish_example E subdir hsdata yaml_data tr = (Ok (Some data), tr') ->
  k <> k_label -> k <> k_description ->
  data !! k = merge_metadata hsdata yaml_data !! k.
Proof.
  intros Hrun Hl Hd.
  apply finish_example_inv in Hrun as (labelled & s & Hlab & _ & Hdata & _).
  apply ensure_label_inv in Hlab as (_ & label & -> & _).
  injection Hdata as ->. by rewrite !lookup_insert_ne.
Qed.

(** A built record comes from a configuration that is a mapping; fetched
    metadata, if any, has neither a label nor a [hydroshare] entry. *)
Lemma build_example_page_Some (subdir conf : pystr) (data : record)
  (tr tr' : list event) :
  build_example_page E subdir conf tr = (Ok (Some data), tr') ->
  exists yaml_data hsdata tr1,
    load_yaml E tr conf = Ok (VDict yaml_data) /\
    (forall d, hsdata = Some d ->
       d !! k_label = None /\ d !! k_hydroshare = None) /\
    finish_example E subdir hsdata yaml_data tr1 = (Ok (Some data), tr').
Proof.
  unfold build_example_page. unfold bind at 1, history. unfold bind at 1, lift.
  destruct (load_yaml E tr conf) as [[| | | | |yaml_data]|e]; try done.
  unfold bind at 1, as_dict at 1, ret. unfold bind at 1.
  destruct (default (VDict ∅) (yaml_data !! k_hydroshare))
    as [| | | | |hydroshare]; try done.
  unfold as_dict, ret.
  destruct (is_none (default VNone (hydroshare !! k_id))).
  - intros Hfin. exists yaml_data, None, tr. by split_and!.
  - unfold bind at 1.
    destruct (get_metadata_from_hs E _ tr) as [[[d|]|e] tr1] eqn:Hget;
      [|done..].
    intros Hfin. exists yaml_data, (Some d), tr1. split_and!; try done.
    intros d' [= <-].
    apply get_metadata_from_hs_Some in Hget as (r & root & _ & _ & _ & Hp & _).
    by apply parse_scimeta_lookup in Hp as (_ & ? & ?).
Qed.

(** An iteration that completes either leaves the index as it was or
    files one built record, whose thumbnail the relocator has set. *)
Lemma process_directory_Ok (entry : pystr * list pystr) (sg sg' : index)
  (tr tr' : list event) :
  process_directory E entry sg tr = (Ok sg', tr') ->
  sg' = sg \/
  exists data name tr1,
    build_example_page E entry.1 (conf_path entry.1)
      (tr ++ [processing_line entry.1]) = (Ok (Some data), tr1) /\
    sg' = file_record entry.1 (<[k_thumbnail := VStr name]> data) sg.
Proof.
  unfold process_directory.
  destruct (bool_decide _); [|intros [= <- <-]; by left].
  unfold bind at 1, emit at 1. unfold bind at 1.
  destruct (build_example_page E _ _ _) as [[[data|]|e] tr1] eqn:Hb;
    [| intros [= <- <-]; by left | done].
  unfold bind at 1.
  destruct (copy_static E _ data tr1) as [[data'|e] tr2] eqn:Hc; [|done].
  intros [= <- <-]. right.
  apply copy_static_ok in Hc as (name & ->). by exists data, name, tr1.
Qed.

(** C7, as the code has it. A record that is filed has a [label] entry
    and string values for [description] and [thumbnail]; its label is not
    null unless the configuration gives a null label or a null remote
    identifier. *)
Theorem filed_record_fields (entry : pystr * list pystr) (sg sg' : index)
  (tr tr' : list event) :
  process_directory E entry sg tr = (Ok sg', tr') ->
  sg' = sg \/
  exists data yaml_data label description thumbnail,
    sg' = file_record entry.1 data sg /\
    load_yaml E (tr ++ [processing_line entry.1]) (conf_path entry.1)
      = Ok (VDict yaml_data) /\
    data !! k_label = Some label /\
    data !! k_description = Some (VStr description) /\
    data !! k_thumbnail = Some (VStr thumbnail) /\
    (yaml_data !! k_label <> Some VNone ->
     remote_id yaml_data <> Some VNone -> label <> VNone).
Proof.
  intros [-> | (data & name & tr1 & Hb & ->)]%process_directory_Ok;
    [by left | right].
  apply build_example_page_Some in Hb
    as (yaml_data & hsdata & tr2 & Hload & Hhs & Hfin).
  apply finish_example_inv in Hfin as (labelled & s & Hlab & _ & Hdata & _).
  apply ensure_label_inv in Hlab as (_ & label & -> & Hlabel).
  injection Hdata as ->.
  eexists _, yaml_data, label, _, name. split_and!; try done.
  - rewrite !lookup_insert_ne by key_neq. apply lookup_insert_eq.
  - rewrite lookup_insert_ne by key_neq. apply lookup_insert_eq.
  - apply lookup_insert_eq.
  - intros Hyl Hyid.
    assert (Hml : merge_metadata hsdata yaml_data !! k_label
                  = yaml_data !! k_label).
    { rewrite merge_metadata_lookup. destruct (yaml_data !! k_label); [done|].
      destruct hsdata as [d|]; [by apply Hhs | apply lookup_empty]. }
    assert (Hmid : remote_id (merge_metadata hsdata yaml_data)
                   = remote_id yaml_data).
    { unfold remote_id. rewrite merge_metadata_lookup.
      destruct (yaml_data !! k_hydroshare); [done|].
      destruct hsdata as [d|]; simpl.
      - by destruct (Hhs d eq_refl) as [_ ->].
      - by rewrite lookup_empty. }
    rewrite Hml, Hmid in Hlabel.
    destruct (yaml_data !! k_label) as [v|]; [congruence|].
    destruct (remote_id yaml_data) as [v|]; [congruence|].
    by destruct Hlabel as (title & bs & _ & _ & ->).
Qed.

(** ** Skipped examples and aborted runs *)

Lemma process_directory_conf (subdir : pystr) (files : list pystr)
  (sg : index) (tr : list event) :
  lit "conf.yaml" ∈ files ->
  process_directory E (subdir, files) sg tr =
  match build_example_page E subdir (conf_path subdir)
          (tr ++ [processing_line subdir]) with
  | (Ok (Some data), tr1) =>
      match copy_static E subdir data tr1 with
      | (Ok data', tr2) => (Ok (file_record subdir data' sg), tr2)
      | (Raise e, tr2) => (Raise e, tr2)
      end
  | (Ok None, tr1) => (Ok sg, tr1)
  | (Raise e, tr1) => (Raise e, tr1)
  end.
Proof.
  intros Hin. unfold process_directory. simpl.
  rewrite bool_decide_eq_true_2 by done.
  unfold bind at 1, emit at 1. unfold bind at 1.
  destruct (build_example_page E _ _ _) as [[[data|]|e] tr1]; try done.
Qed.

Lemma build_example_page_fetch_fails (subdir : pystr) (tr : list event)
  (yaml_data hydroshare : record) (hsid : value) (r : response) :
  load_yaml E tr (conf_path subdir) = Ok (VDict yaml_data) ->
  yaml_data !! k_hydroshare = Some (VDict hydroshare) ->
  hydroshare !! k_id = Some hsid ->
  hsid <> VNone ->
  http_get E tr (scimeta_url E hsid) = Some r ->
  (status_code r <> 200%Z \/ document r = None) ->
  build_example_page E subdir (conf_path subdir) tr =
  match print_error E (tr ++ [HttpGet (scimeta_url E hsid)])
          (fetch_failed_text E hsid) with
  | None =>
      (Ok None,
       tr ++ [HttpGet (scimeta_url E hsid); fetch_failed_line E hsid;
              something_happened_line])
  | Some e => (Raise e, tr ++ [HttpGet (scimeta_url E hsid)])
  end.
Proof.
  intros Hload Hhs Hid Hnone Hget Hfail.
  unfold build_example_page. unfold bind at 1, history.
  unfold bind at 1, lift. rewrite Hload.
  unfold bind at 1, as_dict at 1, ret. unfold bind at 1.
  rewrite Hhs. simpl. unfold ret. rewrite Hid. simpl.
  replace (is_none hsid) with false by (by destruct hsid).
  unfold bind at 1. rewrite get_metadata_from_hs_handler.
  - destruct (print_error E _ _); [done|].
    unfold bind, emit, ret. by rewrite <- !app_assoc.
  - rewrite Hget. destruct Hfail as [? | ->]; [by left | by right].
Qed.


(** X27. In the same situation, when the print of the diagnostic raises,
    nothing catches the error: it leaves the fetcher, the builder and the
    loop, and the run ends after the request, whatever directories
    remain. *)
Theorem failed_fetch_print_error_aborts (subdir : pystr)
  (files : list pystr) (rest : list (pystr * list pystr)) (sg : index)
  (tr : list event) (yaml_data hydroshare : record) (hsid : value)
  (r : response) (e : exn) :
  lit "conf.yaml" ∈ files ->
  load_yaml E (tr ++ [processing_line subdir]) (conf_path subdir)
    = Ok (VDict yaml_data) ->
  yaml_data !! k_hydroshare = Some (VDict hydroshare) ->
  hydroshare !! k_id = Some hsid ->
  hsid <> VNone ->
  http_get E (tr ++ [processing_line subdir]) (scimeta_url E hsid)
    = Some r ->
  (status_code r <> 200%Z \/ document r = None) ->
  print_error E (tr ++ [processing_line subdir; HttpGet (scimeta_url E hsid)])
    (fetch_failed_text E hsid) = Some e ->
  traverse E ((subdir, files) :: rest) sg tr =
  (Raise e, tr ++ [processing_line subdir; HttpGet (scimeta_url E hsid)]).
Proof.
  intros Hin Hload Hhs Hid Hnone Hget Hfail Hprint.
  simpl. unfold bind at 1. rewrite process_directory_conf by done.
  rewrite (build_example_page_fetch_fails subdir _ yaml_data hydroshare
             hsid r) by done.
  rewrite <- app_assoc. simpl. by rewrite Hprint.
Qed.

Lemma build_example_page_no_fetch (subdir conf : pystr)
  (yaml_data : record) (tr : list event) :
  load_yaml E tr conf = Ok (VDict yaml_data) ->
  configured_id yaml_data = Some VNone ->
  build_example_page E subdir conf tr
  = finish_example E subdir None yaml_data tr.
Proof.
  intros Hload Hid.
  unfold build_example_page. unfold bind at 1, history.
  unfold bind at 1, lift. rewrite Hload.
  unfold bind at 1, as_dict at 1, ret. unfold bind at 1.
  unfold configured_id in Hid.
  destruct (default (VDict ∅) (yaml_data !! k_hydroshare)) as [| | | | |h];
    try done.
  simpl. unfold ret. by injection Hid as ->.
Qed.

Lemma finish_example_missing_field (subdir : pystr) (yaml_data : record)
  (tr : list event) :
  (yaml_data !! k_description = None \/
   (yaml_data !! k_title = None /\ yaml_data !! k_label = None /\
    remote_id yaml_data = None)) ->
  exists e, finish_example E subdir None yaml_data tr = (Raise e, tr).
Proof.
  intros Hmiss.
  assert (Hm : forall k, merge_metadata None yaml_data !! k = yaml_data !! k).
  { intros k. rewrite merge_metadata_lookup. simpl. rewrite lookup_empty.
    by destruct (yaml_data !! k). }
  unfold finish_example. unfold bind at 1.
  destruct (ensure_label _ tr) as [[labelled|e] tr1] eqn:Hlab;
    pose proof (ensure_label_trace _ _ _ _ Hlab) as ->; [|by exists e].
  apply ensure_label_inv in Hlab as (_ & label & -> & Hlabel).
  destruct Hmiss as [Hd | (Ht & Hl & Hid)].
  - unfold bind at 1.
    destruct (normalize_description _ tr) as [r tr1] eqn:Hn.
    apply normalize_description_inv in Hn as [-> Hn].
    rewrite lookup_insert_ne, Hm, Hd in Hn by key_neq. subst r. eauto.
  - assert (Hmid : remote_id (merge_metadata None yaml_data)
                   = remote_id yaml_data).
    { unfold remote_id. by rewrite Hm. }
    rewrite Hm, Hl, Hmid, Hid in Hlabel.
    destruct Hlabel as (title & bs & Htitle & _). congruence.
Qed.

(** C1, as the code has it. A configuration for which nothing is fetched
    (no [hydroshare] entry, or a [hydroshare] mapping whose [id] is absent
    or null) and that lacks [description], or lacks [title], [label] and
    an [id] under [hydroshare] at once, makes the builder raise; the
    traversal has no handler, so the error ends the run there and the
    directories that follow are not visited. *)
Theorem missing_field_aborts_run (subdir : pystr) (files : list pystr)
  (rest : list (pystr * list pystr)) (sg : index) (tr : list event)
  (yaml_data : record) :
  lit "conf.yaml" ∈ files ->
  load_yaml E (tr ++ [processing_line subdir]) (conf_path subdir)
    = Ok (VDict yaml_data) ->
  configured_id yaml_data = Some VNone ->
  (yaml_data !! k_description = None \/
   (yaml_data !! k_title = None /\ yaml_data !! k_label = None /\
    remote_id yaml_data = None)) ->
  exists e,
    build_example_page E subdir (conf_path subdir)
      (tr ++ [processing_line subdir])
      = (Raise e, tr ++ [processing_line subdir]) /\
    traverse E ((subdir, files) :: rest) sg tr
      = (Raise e, tr ++ [processing_line subdir]).
Proof.
  intros Hin Hload Hid Hmiss.
  destruct (finish_example_missing_field subdir yaml_data
              (tr ++ [processing_line subdir]) Hmiss) as [e He].
  exists e.
  assert (Hb : build_example_page E subdir (conf_path subdir)
                 (tr ++ [processing_line subdir])
               = (Raise e, tr ++ [processing_line subdir])).
  { by rewrite (build_example_page_no_fetch _ _ yaml_data). }
  split; [done|]. simpl. unfold bind at 1.
  rewrite process_directory_conf by done. by rewrite Hb.
Qed.

(** ** The Aggregator *)

Lemma process_directory_filed (entry : pystr * list pystr) (sg sg' : index)
  (tr tr' : list event) (g c : pystr) :
  process_directory E entry sg tr = (Ok sg', tr') ->
  exists l, filed sg' g c = filed sg g c ++ l.
Proof.
  intros [-> | (data & name & tr1 & _ & ->)]%process_directory_Ok.
  - exists []. by rewrite app_nil_r.
  - rewrite filed_file_record. case_bool_decide; [by eexists|].
    exists []. by rewrite app_nil_r.
Qed.

Lemma traverse_filed (walk : list (pystr * list pystr)) (sg sg' : index)
  (tr tr' : list event) (g c : pystr) :
  traverse E walk sg tr = (Ok sg', tr') ->
  exists l, filed sg' g c = filed sg g c ++ l.
Proof.
  revert sg tr. induction walk as [|entry rest IH]; intros sg tr; simpl.
  - intros [= <- <-]. exists []. by rewrite app_nil_r.
  - unfold bind at 1.
    destruct (process_directory E entry sg tr) as [[sg1|e] tr1] eqn:Hstep;
      [|done].
    intros (l2 & ->)%IH.
    destruct (process_directory_filed _ _ _ _ _ g c Hstep) as (l1 & ->).
    exists (l1 ++ l2). by rewrite app_assoc.
Qed.

(** C8, as the code has it. For an example directory
    [.../subgallery/category/example] whose string has no separator after
    [category/], the loop files the built record, with its thumbnail
    set, under the path two levels up and the name of the parent
    directory; the groupings are created when missing, the record goes to
    the end of the sequence, and whatever the traversal files later comes
    after it. *)
Theorem aggregation_grouping (parent subgallery category example : pystr) :
  Posixpath.is_name subgallery ->
  Posixpath.is_name category ->
  Posixpath.sep ∉ example ->
  let g := parent ++ subgallery in
  let subdir :=
    (g ++ Posixpath.sep :: category) ++ Posixpath.sep :: example in
  subgallery_of subdir = g /\
  category_of subdir = category /\
  (forall data sg,
     file_record subdir data sg =
     <[g := <[category := filed sg g category ++ [data]]>
              (default ∅ (sg !! g))]> sg) /\
  (forall data sg walk sg' tr tr',
     traverse E walk (file_record subdir data sg) tr = (Ok sg', tr') ->
     exists later, filed sg' g category = filed sg g category ++ data :: later) /\
  (forall files rest data sg sg' tr tr1 tr',
     lit "conf.yaml" ∈ files ->
     build_example_page E subdir (conf_path subdir)
       (tr ++ [processing_line subdir]) = (Ok (Some data), tr1) ->
     traverse E ((subdir, files) :: rest) sg tr = (Ok sg', tr') ->
     exists name later,
       filed sg' g category
       = filed sg g category ++ <[k_thumbnail := VStr name]> data :: later).
Proof.
  intros Hsub Hcat Hex g subdir.
  assert (Hdir : Posixpath.dirname subdir = g ++ Posixpath.sep :: category).
  { unfold subdir.
    change (g ++ Posixpath.sep :: category)
      with (g ++ [Posixpath.sep] ++ category).
    rewrite (app_assoc g). by apply Posixpath_dirname_app. }
  assert (Hg : subgallery_of subdir = g).
  { unfold subgallery_of. rewrite Hdir. apply Posixpath_dirname_app; [done|].
    apply Hcat. }
  assert (Hc : category_of subdir = category).
  { unfold category_of. rewrite Hdir. apply Posixpath_basename_app, Hcat. }
  assert (Hlater : forall data sg walk sg' tr tr',
     traverse E walk (file_record subdir data sg) tr = (Ok sg', tr') ->
     exists later,
       filed sg' g category = filed sg g category ++ data :: later).
  { intros data sg walk sg' tr tr' Hrun.
    destruct (traverse_filed _ _ _ _ _ g category Hrun) as (later & ->).
    rewrite filed_file_record, Hg, Hc.
    rewrite bool_decide_eq_true_2 by done.
    exists later. by rewrite <- app_assoc. }
  split_and!; try done.
  - intros data sg. by rewrite file_record_insert, Hg, Hc.
  - intros files rest data sg sg' tr tr1 tr' Hin Hbuild.
    simpl. unfold bind at 1. rewrite process_directory_conf by done.
    rewrite Hbuild.
    destruct (copy_static E subdir data tr1) as [[data'|e] tr2] eqn:Hcopy;
      [|done].
    apply copy_static_ok in Hcopy as (name & ->).
    intros Hrun. exists name. by eapply Hlater.
Qed.

End pipeline.

(* ================================================================== *)
(** * The properties at concrete inputs *)

(** Closed equations are settled by evaluation. *)
Ltac by_compute :=
  match goal with
  | |- ?a = ?b => exact (@eq_refl _ b <: a = b)
  end.

(** Against C1 as stated. A run over two examples, the first without a
    description: the traversal ends with the [KeyError] of the first, and the second, which
    is complete, is never processed. *)
Lemma missing_description_aborts_traversal :
  conf_no_description !! k_description = None /\
  traverse E_missing walk_two ∅ []
    = (Raise (KeyError k_description), [processing_line ex1]) /\
  ~ exists sg tr, traverse E_missing walk_two ∅ [] = (Ok sg, tr).
Proof.
  split_and!; [by_compute | by_compute |].
  intros (sg & tr & H). vm_compute in H. discriminate H.
Qed.

Lemma missing_field_aborts_run_witness :
  exists e,
    build_example_page E_missing ex1 (conf_path ex1)
      ([] ++ [processing_line ex1])
      = (Raise e, [] ++ [processing_line ex1]) /\
    traverse E_missing walk_two ∅ []
      = (Raise e, [] ++ [processing_line ex1]).
Proof.
  apply (missing_field_aborts_run E_missing ex1 [lit "conf.yaml"]
           [(ex2, [lit "conf.yaml"; lit "notes.txt"])] ∅ []
           conf_no_description).
  - apply list_elem_of_here.
  - by_compute.
  - by_compute.
  - left. by_compute.
Defined.

(** Against C2 as stated. An abstract with a letter outside ASCII and a
    line feed: the fetched description drops the letter and keeps the line feed, which is not the
    abstract with its control characters stripped. *)
Lemma fetched_description_keeps_line_feed :
  get_metadata_from_hs E_cafe (VStr (lit "abc123")) []
    = (Ok (Some record_cafe), [HttpGet remote_url]) /\
  record_cafe !! k_description = Some (VStr [99; 97; 102; LF]) /\
  strip_control_characters abstract_cafe = [99; 97; 102; 233] /\
  record_cafe !! k_description
    <> Some (VStr (strip_control_characters abstract_cafe)).
Proof.
  split_and!; [by_compute | by_compute | by_compute |].
  intros H. vm_compute in H. discriminate H.
Qed.

Lemma fetched_description_ascii_witness :
  exists r root abstract,
    http_get E_cafe [] (scimeta_url E_cafe (VStr (lit "abc123"))) = Some r /\
    document r = Some root /\
    dcterms_abstract root = Some (Some abstract) /\
    record_cafe !! k_description = Some (VStr (encode_ascii_ignore abstract)) /\
    forall c, c ∈ encode_ascii_ignore abstract <-> c ∈ abstract /\ c < 128.
Proof.
  apply (fetched_description_ascii E_cafe (VStr (lit "abc123")) record_cafe
           [] [HttpGet remote_url]).
  by_compute.
Defined.


(** C3, where the code departs from it. The first example names the
    resource ["\ud800"] and the service answers 404: the fetch has failed
    and the example is to be skipped.  The print of the diagnostic raises
    [UnicodeEncodeError] inside the handler, nothing catches it, and the
    run ends after the request: the second example, which is complete, is
    never processed. *)
Lemma unprintable_id_aborts_run :
  remote_id conf_unprintable = Some (VStr [55296]) /\
  http_get E_unprintable [processing_line ex1]
    (scimeta_url E_unprintable (VStr [55296]))
    = Some {| status_code := 404; document := None |} /\
  print_error E_unprintable [processing_line ex1; HttpGet unprintable_url]
    (fetch_failed_text E_unprintable (VStr [55296]))
    = Some UnicodeEncodeError /\
  traverse E_unprintable walk_two ∅ []
    = (Raise UnicodeEncodeError,
       [processing_line ex1; HttpGet unprintable_url]) /\
  ~ exists sg tr, traverse E_unprintable walk_two ∅ [] = (Ok sg, tr).
Proof.
  split_and!; [by_compute | by_compute | by_compute | by_compute |].
  intros (sg & tr & H). vm_compute in H. discriminate H.
Qed.

Lemma failed_fetch_print_error_aborts_witness :
  traverse E_unprintable
    ((ex1, [lit "conf.yaml"]) :: [(ex2, [lit "conf.yaml"; lit "notes.txt"])])
    ∅ []
  = (Raise UnicodeEncodeError,
     [] ++ [processing_line ex1;
            HttpGet (scimeta_url E_unprintable (VStr [55296]))]).
Proof.
  apply (failed_fetch_print_error_aborts E_unprintable ex1 [lit "conf.yaml"]
           [(ex2, [lit "conf.yaml"; lit "notes.txt"])] ∅ [] conf_unprintable
           (<[k_id := VStr [55296]]> ∅) (VStr [55296])
           {| status_code := 404; document := None |} UnicodeEncodeError).
  - apply list_elem_of_here.
  - by_compute.
  - by_compute.
  - by_compute.
  - discriminate.
  - by_compute.
  - left. simpl. lia.
  - by_compute.
Defined.



(** Against C7 as stated. A configuration whose label is null: the record
    is filed with a null label. *)
Lemma null_label_is_filed :
  exists data tr,
    traverse E_null_label [(ex1, [lit "conf.yaml"])] ∅ []
      = (Ok (file_record ex1 data ∅), tr) /\
    filed (file_record ex1 data ∅) (lit "./source/gallery/sub") (lit "cat")
      = [data] /\
    data !! k_label = Some VNone.
Proof.
  exists (<[k_thumbnail := VStr default_thumbnail]>
            (<[k_description := VStr (lit "Line1<br>Line2")]> conf_null_label)).
  exists (traverse E_null_label [(ex1, [lit "conf.yaml"])] ∅ []).2.
  split_and!; by_compute.
Qed.

Lemma filed_record_fields_witness :
  let outcome := process_directory E_demo (ex1, [lit "conf.yaml"]) ∅ [] in
  index_of outcome = ∅ \/
  exists data yaml_data label description thumbnail,
    index_of outcome = file_record ex1 data ∅ /\
    load_yaml E_demo ([] ++ [processing_line ex1]) (conf_path ex1)
      = Ok (VDict yaml_data) /\
    data !! k_label = Some label /\
    data !! k_description = Some (VStr description) /\
    data !! k_thumbnail = Some (VStr thumbnail) /\
    (yaml_data !! k_label <> Some VNone ->
     remote_id yaml_data <> Some VNone -> label <> VNone).
Proof.
  intros outcome.
  apply (filed_record_fields E_demo (ex1, [lit "conf.yaml"]) ∅ (index_of outcome)
           [] outcome.2).
  by_compute.
Defined.

(** Against C8 as stated. The example directory written with a
    separator at its end has the same configuration path, but its record
    is filed one level down: under [.../sub/cat] and the category
    [ex1]. *)
Lemma trailing_separator_shifts_keys :
  conf_path ex1_slash = lit "./source/gallery/sub/cat/ex1/conf.yaml" /\
  subgallery_of ex1_slash = lit "./source/gallery/sub/cat" /\
  category_of ex1_slash = lit "ex1" /\
  exists data tr,
    traverse E_demo [(ex1_slash, [lit "conf.yaml"])] ∅ []
      = (Ok (file_record ex1_slash data ∅), tr) /\
    filed (file_record ex1_slash data ∅)
      (lit "./source/gallery/sub") (lit "cat") = [] /\
    filed (file_record ex1_slash data ∅)
      (lit "./source/gallery/sub/cat") (lit "ex1") = [data].
Proof.
  split_and!; [by_compute | by_compute | by_compute |].
  exists (<[k_thumbnail := VStr default_thumbnail]>
            (<[k_label := VStr (lit "RGVtbw==")]>
               (<[k_description := VStr (lit "Line1<br>Line2")]> conf_demo))).
  exists (traverse E_demo [(ex1_slash, [lit "conf.yaml"])] ∅ []).2.
  split_and!; by_compute.
Qed.

Lemma aggregation_grouping_witness :
  let g := lit "./source/gallery/" ++ lit "sub" in
  let subdir :=
    (g ++ Posixpath.sep :: lit "cat") ++ Posixpath.sep :: lit "ex1" in
  subgallery_of subdir = g /\
  category_of subdir = lit "cat" /\
  (forall data sg,
     file_record subdir data sg =
     <[g := <[lit "cat" := filed sg g (lit "cat") ++ [data]]>
              (default ∅ (sg !! g))]> sg) /\
  (forall data sg walk sg' tr tr',
     traverse E_demo walk (file_record subdir data sg) tr = (Ok sg', tr') ->
     exists later,
       filed sg' g (lit "cat") = filed sg g (lit "cat") ++ data :: later) /\
  (forall files rest data sg sg' tr tr1 tr',
     lit "conf.yaml" ∈ files ->
     build_example_page E_demo subdir (conf_path subdir)
       (tr ++ [processing_line subdir]) = (Ok (Some data), tr1) ->
     traverse E_demo ((subdir, files) :: rest) sg tr = (Ok sg', tr') ->
     exists name later,
       filed sg' g (lit "cat")
       = filed sg g (lit "cat")
         ++ <[k_thumbnail := VStr name]> data :: later).
Proof.
  apply (aggregation_grouping E_demo (lit "./source/gallery/") (lit "sub")
           (lit "cat") (lit "ex1")).
  - split; [discriminate | by apply (bool_decide_unpack _); vm_compute].
  - split; [discriminate | by apply (bool_decide_unpack _); vm_compute].
  - by apply (bool_decide_unpack _); vm_compute.
Defined.

Lemma copy_static_missing_thumbnail_witness :
  copy_static E_demo ex1 conf_demo []
    = (Ok (<[k_thumbnail := VStr default_thumbnail]> conf_demo),
       [] ++ [warn_missing_thumbnail]).
Proof.
  apply (copy_static_missing_thumbnail E_demo ex1 conf_demo []).
  left. by_compute.
Defined.

Lemma copy_static_frame_witness :
  (forall k, k <> k_thumbnail ->
     <[k_thumbnail := VStr (lit "thumbnail-RGVtbw==")]> record_thumbnail !! k
     = record_thumbnail !! k) /\
  delete k_thumbnail
    (<[k_thumbnail := VStr (lit "thumbnail-RGVtbw==")]> record_thumbnail)
    = delete k_thumbnail record_thumbnail.
Proof.
  apply (copy_static_frame E_thumbnail ex1 record_thumbnail _ []
           [CopyFile (lit "/work/source/gallery/sub/cat/ex1/thumb.png")
                     (lit "./source/_static/thumbnail-RGVtbw==")]).
  by_compute.
Defined.

(* ================================================================== *)
(** * Further properties of the pipeline *)

(** ** The Metadata Fetcher *)

Section fetcher_more.
Context (E : env).

(** X1. The fetcher makes one request and catches every error of its
    [try] body: it returns a record after the request, or, when the body
    failed, goes on to print the diagnostic; then it returns [None] after
    the line, or raises what the print raised, which is the only error
    that leaves it. *)
Theorem get_metadata_from_hs_outcomes (hsguid : value) (tr : list event) :
  let sent := tr ++ [HttpGet (scimeta_url E hsguid)] in
  exists body : option record,
    get_metadata_from_hs E hsguid tr =
    match body, print_error E sent (fetch_failed_text E hsguid) with
    | Some data, _ => (Ok (Some data), sent)
    | None, None => (Ok None, sent ++ [fetch_failed_line E hsguid])
    | None, Some e => (Raise e, sent)
    end.
Proof.
  intros sent. subst sent.
  unfold get_metadata_from_hs, fetch_scimeta, print_diagnostic.
  unfold fetch_failed_line. unfold_monad.
  destruct (http_get E tr _) as [r|]; [|exists None; by case_print].
  destruct (negb _); [exists None; by case_print|].
  destruct (document r) as [root|]; [|exists None; by case_print].
  destruct (parse_scimeta E root) as [d|]; [by exists (Some d)|].
  exists None. by case_print.
Qed.

Lemma authors_of_Some (creators : list (option creator_terms))
  (l : list value) :
  authors_of E creators = Some l ->
  exists terms, creators = Some <$> terms /\
    l = (fun t => VDict (author_record E t)) <$> terms.
Proof.
  revert l. induction creators as [|[t|] rest IH]; intros l; simpl.
  - intros [= <-]. by exists [].
  - destruct (authors_of E rest) as [l'|]; [|done]. intros [= <-].
    destruct (IH l' eq_refl) as (terms & -> & ->). by exists (t :: terms).
  - done.
Qed.

(** The record the [try] body builds, entry by entry. *)
Lemma parse_scimeta_Some (root : scimeta) (data : record) :
  parse_scimeta E root = Some data ->
  exists terms title abstract,
    dc_creators root = Some <$> terms /\
    dc_title root = Some title /\
    dcterms_abstract root = Some (Some abstract) /\
    data =
      let base :=
        <[k_description := VStr (encode_ascii_ignore abstract)]>
          (<[k_title := text_value title]>
             (<[k_authors :=
                  VList ((fun t => VDict (author_record E t)) <$> terms)]>
                ∅)) in
      match dc_subjects root with
      | [] => base
      | _ :: _ => <[k_keywords := VList (text_value <$> dc_subjects root)]> base
      end.
Proof.
  unfold parse_scimeta.
  destruct (authors_of E _) as [authors|] eqn:Ha; [|done].
  apply authors_of_Some in Ha as (terms & Hc & ->).
  destruct (dc_title root) as [title|]; [|done].
  destruct (dcterms_abstract root) as [[abstract|]|]; [|done..].
  intros [= <-]. exists terms, title, abstract. split_and!; try done.
  by destruct (dc_subjects root).
Qed.

(** X2. A fetched record has the entries [authors], [title] and
    [description], the entry [keywords] exactly when the document has a
    subject, and no other entry. *)
Theorem fetched_record_keys (hsguid : value) (data : record)
  (tr tr' : list event) :
  get_metadata_from_hs E hsguid tr = (Ok (Some data), tr') ->
  exists r root,
    http_get E tr (scimeta_url E hsguid) = Some r /\
    document r = Some root /\
    dom data =
      {[k_authors; k_title; k_description]} ∪
      (match dc_subjects root with
       | [] => ∅
       | _ :: _ => {[k_keywords]}
       end : gset pystr).
Proof.
  intros (r & root & Hget & _ & Hdoc & Hp & _)%get_metadata_from_hs_Some.
  exists r, root. split_and!; try done.
  apply parse_scimeta_Some in Hp as (terms & title & abstract & _ & _ & _ & ->).
  cbv zeta. destruct (dc_subjects root);
    rewrite !dom_insert_L, dom_empty_L; set_solver.
Qed.

(** X3. The keywords of a fetched record are the texts of the subjects
    in document order; without a subject there is no [keywords] entry at
    all, not an empty list. *)
Theorem fetched_keywords (hsguid : value) (data : record)
  (tr tr' : list event) :
  get_metadata_from_hs E hsguid tr = (Ok (Some data), tr') ->
  exists r root,
    http_get E tr (scimeta_url E hsguid) = Some r /\
    document r = Some root /\
    data !! k_keywords =
      match dc_subjects root with
      | [] => None
      | _ :: _ => Some (VList (text_value <$> dc_subjects root))
      end.
Proof.
  intros (r & root & Hget & _ & Hdoc & Hp & _)%get_metadata_from_hs_Some.
  exists r, root. split_and!; try done.
  apply parse_scimeta_Some in Hp as (terms & title & abstract & _ & _ & _ & ->).
  cbv zeta. destruct (dc_subjects root).
  - rewrite !lookup_insert_ne by key_neq. apply lookup_empty.
  - apply lookup_insert_eq.
Qed.

(** X4. The authors of a fetched record are one dictionary per creator
    of the document, in document order; every creator has its
    [rdf:Description]. *)
Theorem fetched_authors (hsguid : value) (data : record)
  (tr tr' : list event) :
  get_metadata_from_hs E hsguid tr = (Ok (Some data), tr') ->
  exists r root terms,
    http_get E tr (scimeta_url E hsguid) = Some r /\
    document r = Some root /\
    dc_creators root = Some <$> terms /\
    data !! k_authors =
      Some (VList ((fun t => VDict (author_record E t)) <$> terms)).
Proof.
  intros (r & root & Hget & _ & Hdoc & Hp & _)%get_metadata_from_hs_Some.
  apply parse_scimeta_Some in Hp as (terms & title & abstract & Hc & _ & _ & ->).
  exists r, root, terms. split_and!; try done.
  cbv zeta. destruct (dc_subjects root);
    rewrite !lookup_insert_ne by key_neq; apply lookup_insert_eq.
Qed.

(** X5. A creator's dictionary has [name], [organization] and [email]
    exactly for the elements the document has, and a [url] exactly when
    it has a description: the fixed prefix followed by its text (by
    [None] when the element is empty). *)
Theorem author_record_entries (terms : creator_terms) :
  author_record E terms !! k_name = text_value <$> hs_name terms /\
  author_record E terms !! k_organization
    = text_value <$> hs_organization terms /\
  author_record E terms !! k_email = text_value <$> hs_email terms /\
  author_record E terms !! k_url =
    (fun el => VStr (lit "https://hydroshare.org"
                     ++ default (lit "None") el)) <$> hs_description terms /\
  forall k, k ∉ [k_name; k_organization; k_email; k_url] ->
    author_record E terms !! k = None.
Proof.
  assert (Hput : forall k k' found d,
            put_text k found d !! k' =
            if decide (k = k') then
              match found with
              | Some el => Some (text_value el)
              | None => d !! k'
              end
            else d !! k').
  { intros k k' [el|] d; simpl; [apply lookup_insert|by case_decide; subst]. }
  assert (Hurl : forall k', k' <> k_url ->
            author_record E terms !! k' =
            put_text k_email (hs_email terms)
              (put_text k_organization (hs_organization terms)
                 (put_text k_name (hs_name terms) ∅)) !! k').
  { intros k' Hk. unfold author_record.
    destruct (hs_description terms); [by rewrite lookup_insert_ne|done]. }
  split_and!.
  - rewrite Hurl, !Hput by key_neq.
    rewrite !decide_False, decide_True by (done || key_neq).
    by destruct (hs_name terms).
  - rewrite Hurl, !Hput by key_neq.
    rewrite decide_False, decide_True by (done || key_neq).
    destruct (hs_organization terms); [done|].
    by rewrite decide_False by key_neq.
  - rewrite Hurl, !Hput by key_neq. rewrite decide_True by done.
    destruct (hs_email terms); [done|].
    rewrite !decide_False by key_neq. done.
  - unfold author_record. destruct (hs_description terms) as [[u|]|]; simpl.
    + apply lookup_insert_eq.
    + apply lookup_insert_eq.
    + rewrite !Hput. rewrite !decide_False by key_neq. apply lookup_empty.
  - intros k Hk. apply not_elem_of_cons in Hk as [Hn Hk].
    apply not_elem_of_cons in Hk as [Ho Hk].
    apply not_elem_of_cons in Hk as [He Hk].
    apply not_elem_of_cons in Hk as [Hu _].
    rewrite Hurl, !Hput by done. rewrite !decide_False by done.
    apply lookup_empty.
Qed.

End fetcher_more.

(** ** The Example Builder *)

(** X6. An explicit label wins over the remote identifier, and the remote
    identifier over the title: with either of them the label is set
    without the title being read. *)
Theorem label_precedence (data : record) (v : value) (tr : list event) :
  (data !! k_label = Some v \/
   (data !! k_label = None /\ remote_id data = Some v)) ->
  ensure_label data tr = (Ok (<[k_label := v]> data), tr).
Proof.
  unfold ensure_label. intros [Hl | [Hl Hid]]; rewrite Hl.
  - by rewrite insert_id.
  - unfold bind at 1, try_except. by rewrite remote_id_lookup, Hid.
Qed.

Section builder_more.
Context (E : env).

(** X7. A configuration file that does not hold a mapping (an empty file
    loads as null), or whose [hydroshare] entry is not a mapping, makes
    the builder raise [AttributeError] before any effect. *)
Theorem build_example_page_not_mapping (subdir conf : pystr)
  (loaded : value) (tr : list event) :
  load_yaml E tr conf = Ok loaded ->
  (is_dict loaded = false \/
   exists d h, loaded = VDict d /\ d !! k_hydroshare = Some h /\
     is_dict h = false) ->
  build_example_page E subdir conf tr = (Raise AttributeError, tr).
Proof.
  intros Hload Hbad. unfold build_example_page.
  unfold bind at 1, history. unfold bind at 1, lift. rewrite Hload.
  destruct Hbad as [Hnd | (d & h & -> & Hh & Hnd)].
  - by destruct loaded.
  - unfold bind at 1, as_dict at 1, ret. unfold bind at 1. rewrite Hh. simpl.
    by destruct h.
Qed.

(** The effects of the relocator: the warning, or one copy. *)
Lemma copy_static_trace (subdir : pystr) (data data' : record)
  (tr tr' : list event) :
  copy_static E subdir data tr = (Ok data', tr') ->
  exists post, tr' = tr ++ post /\
    (post = [warn_missing_thumbnail] \/ exists src dst, post = [CopyFile src dst]).
Proof.
  unfold copy_static. intros Hrun.
  destruct (data !! k_thumbnail) as [[]|] eqn:Hth; try done.
  - revert Hrun. unfold_monad.
    destruct (path_exists E tr _).
    + unfold getitem. destruct (data !! k_label) as [label|]; [|done].
      unfold_monad. destruct (copy_error E tr _ _); [done|].
      intros [= <- <-]. eexists. split; [done|]. right. eauto.
    + intros [= <- <-]. eexists. split; [done|]. by left.
  - injection Hrun as <- <-. eexists. split; [done|]. by left.
Qed.

(** The effects of a build that returns a record end with the cache file
    and the landing page, both holding that record. *)
Lemma build_example_page_trace (subdir conf : pystr) (data : record)
  (tr tr' : list event) :
  build_example_page E subdir conf tr = (Ok (Some data), tr') ->
  exists pre,
    tr' = pre ++
      [WriteCache (Posixpath.join subdir (lit ".cache.yaml")) data;
       RenderPage landing_template data
         (Posixpath.join subdir (lit "index.rst"))].
Proof.
  intros (yaml_data & hsdata & tr1 & _ & _ & Hfin)%build_example_page_Some.
  apply finish_example_inv in Hfin as (labelled & s & _ & _ & Hdata & ->).
  injection Hdata as ->. by exists tr1.
Qed.

(** X8. The cache file and the landing page of an example hold the
    record as the builder returns it, with the thumbnail as configured;
    the relocation comes after them, so the filed record differs from the
    cached one in its [thumbnail] entry. *)
Theorem cache_precedes_relocation (entry : pystr * list pystr)
  (sg sg' : index) (tr tr' : list event) :
  process_directory E entry sg tr = (Ok sg', tr') ->
  sg' = sg \/
  exists data name pre post,
    sg' = file_record entry.1 (<[k_thumbnail := VStr name]> data) sg /\
    tr' = pre ++
      [WriteCache (Posixpath.join entry.1 (lit ".cache.yaml")) data;
       RenderPage landing_template data
         (Posixpath.join entry.1 (lit "index.rst"))] ++ post /\
    (post = [warn_missing_thumbnail] \/
     exists src dst, post = [CopyFile src dst]).
Proof.
  unfold process_directory.
  destruct (bool_decide _); [|intros [= <- <-]; by left].
  unfold bind at 1, emit at 1. unfold bind at 1.
  destruct (build_example_page E _ _ _) as [[[data|]|e] tr1] eqn:Hb;
    [| intros [= <- <-]; by left | done].
  unfold bind at 1.
  destruct (copy_static E _ data tr1) as [[data'|e] tr2] eqn:Hc; [|done].
  intros [= <- <-]. right.
  apply build_example_page_trace in Hb as (pre & ->).
  pose proof (copy_static_trace _ _ _ _ _ Hc) as (post & -> & Hpost).
  apply copy_static_ok in Hc as (name & ->).
  exists data, name, pre, post. split_and!; try done.
  by rewrite <- app_assoc.
Qed.

(** The built record has the thumbnail entry of the configuration. *)
Lemma build_example_page_thumbnail (subdir conf : pystr)
  (yaml_data data : record) (v : value) (tr tr' : list event) :
  load_yaml E tr conf = Ok (VDict yaml_data) ->
  yaml_data !! k_thumbnail = Some v ->
  build_example_page E subdir conf tr = (Ok (Some data), tr') ->
  data !! k_thumbnail = Some v.
Proof.
  intros Hload Hth (y & hs & tr1 & Hload' & _ & Hfin)%build_example_page_Some.
  rewrite Hload in Hload'. injection Hload' as <-.
  rewrite (built_record_is_merged E _ _ _ _ k_thumbnail _ _ Hfin)
    by key_neq.
  by rewrite merge_metadata_lookup, Hth.
Qed.

(** X10. A thumbnail entry that is not a string (a null, a number, a
    list) makes the relocator raise [TypeError]: the example's cache file
    and page are written, and the run ends there. *)
Theorem non_string_thumbnail_aborts (subdir : pystr) (files : list pystr)
  (rest : list (pystr * list pystr)) (sg : index)
  (yaml_data data : record) (v : value) (tr tr1 : list event) :
  lit "conf.yaml" ∈ files ->
  load_yaml E (tr ++ [processing_line subdir]) (conf_path subdir)
    = Ok (VDict yaml_data) ->
  yaml_data !! k_thumbnail = Some v ->
  is_str v = false ->
  build_example_page E subdir (conf_path subdir)
    (tr ++ [processing_line subdir]) = (Ok (Some data), tr1) ->
  copy_static E subdir data tr1 = (Raise TypeError, tr1) /\
  traverse E ((subdir, files) :: rest) sg tr = (Raise TypeError, tr1).
Proof.
  intros Hin Hload Hth Hv Hb.
  pose proof (build_example_page_thumbnail _ _ _ _ _ _ _ Hload Hth Hb) as Hd.
  assert (Hc : copy_static E subdir data tr1 = (Raise TypeError, tr1)).
  { unfold copy_static. rewrite Hd. by destruct v. }
  split; [done|]. simpl. unfold bind at 1.
  rewrite process_directory_conf by done. by rewrite Hb, Hc.
Qed.

(** ** The index as a whole *)

Lemma process_directory_record_ok (entry : pystr * list pystr)
  (sg sg' : index) (tr tr' : list event) :
  process_directory E entry sg tr = (Ok sg', tr') ->
  sg' = sg \/ exists data, sg' = file_record entry.1 data sg /\ record_ok data.
Proof.
  intros [-> | (data & name & tr1 & Hb & ->)]%process_directory_Ok;
    [by left | right].
  apply build_example_page_Some in Hb as (y & hs & tr2 & _ & _ & Hfin).
  apply finish_example_inv in Hfin as (labelled & s & Hlab & _ & Hdata & _).
  apply ensure_label_inv in Hlab as (_ & label & -> & _).
  injection Hdata as ->. eexists. split; [done|]. split_and!.
  - exists label. rewrite !lookup_insert_ne by key_neq. apply lookup_insert_eq.
  - eexists. rewrite lookup_insert_ne by key_neq. apply lookup_insert_eq.
  - eexists. apply lookup_insert_eq.
Qed.

Lemma file_record_index_ok (subdir : pystr) (data : record) (sg : index) :
  record_ok data -> index_ok sg -> index_ok (file_record subdir data sg).
Proof.
  intros Hdata Hsg g cats. rewrite file_record_insert.
  destruct (decide (subgallery_of subdir = g)) as [<- | Hg].
  - rewrite lookup_insert_eq. intros [= <-]. split.
    + intros Hempty.
      apply (f_equal (fun m => m !! category_of subdir)) in Hempty.
      by rewrite lookup_insert_eq, lookup_empty in Hempty.
    + intros c l.
      destruct (decide (category_of subdir = c)) as [<- | Hc].
      * rewrite lookup_insert_eq. intros [= <-]. split.
        -- by destruct (filed sg _ _).
        -- apply Forall_app. split; [|by constructor].
           unfold filed.
           destruct (sg !! subgallery_of subdir) as [cats|] eqn:Hcats;
             simpl; [|by rewrite lookup_empty].
           destruct (cats !! category_of subdir) as [l|] eqn:Hl; simpl;
             [|done].
           by apply (proj2 (Hsg _ _ Hcats) _ _ Hl).
      * rewrite lookup_insert_ne by done.
        destruct (sg !! subgallery_of subdir) as [cats|] eqn:Hcats; simpl.
        -- apply (proj2 (Hsg _ _ Hcats)).
        -- by rewrite lookup_empty.
  - rewrite lookup_insert_ne by done. apply Hsg.
Qed.

(** X11. The traversal keeps the index well formed: no sub-gallery
    without a category, no category without an example, and every filed
    record with a label entry and string description and thumbnail. *)
Theorem traverse_index_ok (walk : list (pystr * list pystr))
  (sg sg' : index) (tr tr' : list event) :
  index_ok sg ->
  traverse E walk sg tr = (Ok sg', tr') ->
  index_ok sg'.
Proof.
  revert sg tr. induction walk as [|entry rest IH]; intros sg tr Hsg; simpl.
  - by intros [= <- <-].
  - unfold bind at 1.
    destruct (process_directory E entry sg tr) as [[sg1|e] tr1] eqn:Hstep;
      [|done].
    apply IH.
    apply process_directory_record_ok in Hstep as [-> | (data & -> & Hd)];
      [done | by apply file_record_index_ok].
Qed.

(** X12. Directories without a [conf.yaml] play no part: the traversal
    of a walk is the traversal of its directories that have one. *)
Theorem traverse_skips_other_directories (walk : list (pystr * list pystr))
  (sg : index) (tr : list event) :
  traverse E walk sg tr = traverse E (List.filter has_conf walk) sg tr.
Proof.
  revert sg tr. induction walk as [|entry rest IH]; intros sg tr; [done|].
  simpl. destruct (has_conf entry) eqn:Hc; simpl.
  - unfold bind.
    destruct (process_directory E entry sg tr) as [[sg1|e] tr1]; [apply IH|done].
  - unfold bind at 1, process_directory. unfold has_conf in Hc.
    rewrite Hc. apply IH.
Qed.

End builder_more.

(** ** The derived label as text *)

Lemma alphabet_base64_char (d : N) : base64_char (Base64.alphabet d) = true.
Proof.
  unfold base64_char.
  destruct (N.lt_ge_cases d 64) as [Hd | Hd].
  - by rewrite digit_alphabet.
  - assert (Base64.alphabet d = 47) as ->; [|done].
    unfold Base64.alphabet.
    destruct (N.ltb_spec d 26); [lia|]. destruct (N.ltb_spec d 52); [lia|].
    destruct (N.ltb_spec d 62); [lia|]. destruct (N.eqb_spec d 62); [lia|done].
Qed.

Lemma b64encode_text (bs : list N) :
  Forall (fun c => base64_char c = true) (Base64.b64encode bs) /\
  exists k, length (Base64.b64encode bs) = (4 * k)%nat /\
            (length bs <= 3 * k < length bs + 3)%nat.
Proof.
  remember (length bs) as n eqn:Hn. revert bs Hn.
  induction (lt_wf n) as [n _ IH]. intros bs ->.
  destruct bs as [|a [|b [|c rest]]].
  - split; [constructor|]. exists O. simpl. lia.
  - split; [repeat constructor; apply alphabet_base64_char|].
    exists 1%nat. simpl. lia.
  - split; [repeat constructor; apply alphabet_base64_char|].
    exists 1%nat. simpl. lia.
  - destruct (IH (length rest) ltac:(simpl; lia) rest eq_refl)
      as (Hall & k & Hlen & Hk).
    change (Base64.b64encode (a :: b :: c :: rest)) with
      (Base64.alphabet (N.shiftr a 2)
       :: Base64.alphabet (N.lor (N.shiftl (N.land a 3) 4) (N.shiftr b 4))
       :: Base64.alphabet (N.lor (N.shiftl (N.land b 15) 2) (N.shiftr c 6))
       :: Base64.alphabet (N.land c 63) :: Base64.b64encode rest).
    split; [repeat (constructor; [apply alphabet_base64_char|]); done|].
    exists (S k). simpl in *. lia.
Qed.

(** X13. A label derived from the title is base64 text: every character
    is a letter, a digit, [+], [/] or the padding [=], and there are four
    characters for every three bytes of the title, the last group
    padded. *)
Theorem derived_label_is_base64_text (data : record) (v : value)
  (tr tr' : list event) :
  title_label data tr = (Ok v, tr') ->
  exists title bs label,
    data !! k_title = Some (VStr title) /\
    utf8_encode title = Some bs /\
    v = VStr label /\
    Forall (fun c => base64_char c = true) label /\
    exists k, length label = (4 * k)%nat /\
              (length bs <= 3 * k < length bs + 3)%nat.
Proof.
  intros (_ & title & bs & Ht & Hbs & ->)%title_label_inv.
  exists title, bs, (Base64.b64encode bs). split_and!; try done;
    apply b64encode_text.
Qed.

(** ** UTF-8 read back *)

Lemma land_31 (a : N) : N.land a 31 = a mod 32.
Proof. change 31 with (N.ones 5). by rewrite N.land_ones. Qed.

Lemma land_7 (a : N) : N.land a 7 = a mod 8.
Proof. change 7 with (N.ones 3). by rewrite N.land_ones. Qed.

Lemma shiftl_6 (a : N) : N.shiftl a 6 = a * 64.
Proof. by rewrite shiftl_mul. Qed.

Lemma shiftr_6 (a : N) : N.shiftr a 6 = a / 64.
Proof. by rewrite shiftr_div. Qed.

Lemma shiftr_12 (a : N) : N.shiftr a 12 = a / 64 / 64.
Proof. rewrite shiftr_div, N.Div0.div_div. done. Qed.

Lemma shiftr_18 (a : N) : N.shiftr a 18 = a / 64 / 64 / 64.
Proof. rewrite shiftr_div, !N.Div0.div_div. done. Qed.

(** A continuation byte gives its six bits back. *)
Lemma continuation_bits (r : N) :
  r < 64 -> N.land (N.lor 128 r) 63 = r.
Proof.
  intros Hr. change 128 with (2 * 64).
  rewrite (lor_low_add 2 r 64 6), land_63 by done. by apply joined_mod.
Qed.

Lemma lead2_bits (q : N) :
  q < 32 ->
  128 <= N.lor 192 q < 224 /\ N.land (N.lor 192 q) 31 = q.
Proof.
  intros Hq. change 192 with (6 * 32).
  rewrite (lor_low_add 6 q 32 5), land_31 by done.
  rewrite joined_mod by done. lia.
Qed.

Lemma lead3_bits (q : N) :
  q < 16 ->
  224 <= N.lor 224 q < 240 /\ N.land (N.lor 224 q) 15 = q.
Proof.
  intros Hq. change 224 with (14 * 16).
  rewrite (lor_low_add 14 q 16 4), land_15 by done.
  rewrite joined_mod by done. lia.
Qed.

Lemma lead4_bits (q : N) :
  q < 8 ->
  240 <= N.lor 240 q /\ N.land (N.lor 240 q) 7 = q.
Proof.
  intros Hq. change 240 with (30 * 8).
  rewrite (lor_low_add 30 q 8 3), land_7 by done.
  rewrite joined_mod by done. lia.
Qed.

(** Six more bits appended to a value. *)
Lemma append_bits (x : N) :
  N.lor (N.shiftl (x / 64) 6) (x mod 64) = x.
Proof.
  rewrite shiftl_6, (lor_low_add _ _ 64 6); [apply div_mod_join|done|].
  by apply mod_lt_pos.
Qed.

Lemma utf8_decode_encode_char (c : N) (bs rest : list N) :
  utf8_encode_char c = Some bs ->
  utf8_decode_char (bs ++ rest) = Some (c, rest).
Proof.
  unfold utf8_encode_char.
  destruct (N.ltb_spec c 128) as [H1|H1].
  { intros [= <-]. simpl. destruct (N.ltb_spec c 128); [done|lia]. }
  destruct (N.ltb_spec c 2048) as [H2|H2].
  { intros [= <-]. rewrite shiftr_6, land_63.
    assert (Hq : c / 64 < 32) by (apply N.Div0.div_lt_upper_bound; lia).
    assert (Hr : c mod 64 < 64) by (by apply mod_lt_pos).
    destruct (lead2_bits _ Hq) as [Hb Hl].
    cbn [app utf8_decode_char].
    destruct (N.ltb_spec (N.lor 192 (c / 64)) 128); [lia|].
    destruct (N.ltb_spec (N.lor 192 (c / 64)) 224); [|lia].
    by rewrite Hl, continuation_bits, append_bits. }
  destruct (N.ltb_spec c 65536) as [H3|H3].
  { destruct (_ && _); [done|]. intros [= <-].
    rewrite shiftr_12, shiftr_6, !land_63.
    assert (Hq : c / 64 / 64 < 16).
    { rewrite N.Div0.div_div. apply N.Div0.div_lt_upper_bound. lia. }
    destruct (lead3_bits _ Hq) as [Hb Hl].
    cbn [app utf8_decode_char].
    destruct (N.ltb_spec (N.lor 224 (c / 64 / 64)) 128); [lia|].
    destruct (N.ltb_spec (N.lor 224 (c / 64 / 64)) 224); [lia|].
    destruct (N.ltb_spec (N.lor 224 (c / 64 / 64)) 240); [|lia].
    rewrite Hl, !continuation_bits by (by apply mod_lt_pos).
    by rewrite !append_bits. }
  destruct (N.ltb_spec c 1114112) as [H4|H4]; [|done].
  intros [= <-].
  rewrite shiftr_18, shiftr_12, shiftr_6, !land_63.
  assert (Hq : c / 64 / 64 / 64 < 8).
  { rewrite !N.Div0.div_div. apply N.Div0.div_lt_upper_bound. lia. }
  destruct (lead4_bits _ Hq) as [Hb Hl].
  cbn [app utf8_decode_char].
  destruct (N.ltb_spec (N.lor 240 (c / 64 / 64 / 64)) 128); [lia|].
  destruct (N.ltb_spec (N.lor 240 (c / 64 / 64 / 64)) 224); [lia|].
  destruct (N.ltb_spec (N.lor 240 (c / 64 / 64 / 64)) 240); [lia|].
  rewrite Hl, !continuation_bits by (by apply mod_lt_pos).
  by rewrite !append_bits.
Qed.

Lemma utf8_encode_inj (s1 s2 : pystr) (bs : list N) :
  utf8_encode s1 = Some bs -> utf8_encode s2 = Some bs -> s1 = s2.
Proof.
  revert s2 bs. induction s1 as [|c1 r1 IH]; intros [|c2 r2] bs; simpl.
  - done.
  - intros [= <-].
    destruct (utf8_encode_char c2) as [b2|] eqn:H2; [|done].
    destruct (utf8_encode r2) as [t2|]; [|done]. intros [= Hnil].
    apply (utf8_decode_encode_char _ _ t2) in H2. by rewrite Hnil in H2.
  - destruct (utf8_encode_char c1) as [b1|] eqn:H1; [|done].
    destruct (utf8_encode r1) as [t1|]; [|done]. intros [= <-] [= Hnil].
    apply (utf8_decode_encode_char _ _ t1) in H1. by rewrite <- Hnil in H1.
  - destruct (utf8_encode_char c1) as [b1|] eqn:H1; [|done].
    destruct (utf8_encode r1) as [t1|] eqn:Hr1; [|done]. intros [= <-].
    destruct (utf8_encode_char c2) as [b2|] eqn:H2; [|done].
    destruct (utf8_encode r2) as [t2|] eqn:Hr2; [|done]. intros [= Heq].
    apply (utf8_decode_encode_char _ _ t1) in H1.
    apply (utf8_decode_encode_char _ _ t2) in H2.
    rewrite Heq, H1 in H2. injection H2 as -> ->.
    f_equal. by apply (IH r2 t2).
Qed.

(** X14. Two titles with the same derived label are the same title: the
    label determines the title, character by character. *)
Theorem derived_label_injective (data1 data2 : record) (label : value)
  (tr1 tr1' tr2 tr2' : list event) :
  title_label data1 tr1 = (Ok label, tr1') ->
  title_label data2 tr2 = (Ok label, tr2') ->
  data1 !! k_title = data2 !! k_title.
Proof.
  intros (_ & t1 & b1 & Ht1 & Hb1 & ->)%title_label_inv
         (_ & t2 & b2 & Ht2 & Hb2 & [= Henc])%title_label_inv.
  assert (b1 = b2) as ->.
  { pose proof (b64decode_b64encode b1 (utf8_encode_octets _ _ Hb1)) as D1.
    pose proof (b64decode_b64encode b2 (utf8_encode_octets _ _ Hb2)) as D2.
    rewrite Henc, D2 in D1. by injection D1. }
  rewrite Ht1, Ht2. do 2 f_equal. by apply (utf8_encode_inj _ _ b2).
Qed.

(** ** Where the files of an example go *)

Lemma Posixpath_join_names (a n b : pystr) :
  Posixpath.is_name n -> Posixpath.is_name b ->
  Posixpath.join (a ++ n) b = (a ++ n) ++ Posixpath.sep :: b.
Proof.
  intros Hn [Hb Hsep]. unfold Posixpath.join.
  destruct b as [|c b']; [done|].
  assert (Hc : c <> Posixpath.sep) by (intros ->; apply Hsep; by left).
  simpl. destruct (N.eqb_spec c Posixpath.sep); [done|].
  apply Posixpath_is_name_snoc in Hn as (q & x & -> & Hx).
  rewrite app_assoc. unfold Posixpath.ends_with_sep. rewrite last_snoc.
  destruct (N.eqb_spec x Posixpath.sep); [done|].
  by destruct ((a ++ q) ++ [x]) eqn:Heq; [destruct (a ++ q)|].
Qed.

(** X15. The cache file and the landing page of an example are written
    beside its configuration file: the three paths have the example
    directory as their directory part. *)
Theorem example_files_beside_conf (parent name : pystr) :
  Posixpath.is_name name ->
  let subdir := parent ++ name in
  Posixpath.dirname (conf_path subdir) = subdir /\
  Posixpath.basename (conf_path subdir) = lit "conf.yaml" /\
  Posixpath.dirname (Posixpath.join subdir (lit ".cache.yaml")) = subdir /\
  Posixpath.dirname (Posixpath.join subdir (lit "index.rst")) = subdir.
Proof.
  intros Hn subdir. unfold conf_path, subdir.
  assert (Hlit : forall s, Posixpath.is_name (lit s) ->
            Posixpath.join (parent ++ name) (lit s)
            = (parent ++ name) ++ Posixpath.sep :: lit s).
  { intros s Hs. by apply Posixpath_join_names. }
  assert (H1 : Posixpath.is_name (lit "conf.yaml")).
  { split; [done|]. by apply (bool_decide_unpack _); vm_compute. }
  assert (H2 : Posixpath.is_name (lit ".cache.yaml")).
  { split; [done|]. by apply (bool_decide_unpack _); vm_compute. }
  assert (H3 : Posixpath.is_name (lit "index.rst")).
  { split; [done|]. by apply (bool_decide_unpack _); vm_compute. }
  rewrite !Hlit by done. split_and!.
  - apply Posixpath_dirname_app; [done | apply H1].
  - apply Posixpath_basename_app, H1.
  - apply Posixpath_dirname_app; [done | apply H2].
  - apply Posixpath_dirname_app; [done | apply H3].
Qed.

(** ** The sub-gallery pages and the homepage *)

Lemma find_title_skip (sub : pystr) (pre rest : list value)
  (tr : list event) :
  Forall (other_gallery sub) pre ->
  find_title sub (pre ++ rest) tr = find_title sub rest tr.
Proof.
  induction 1 as [|v pre (d & path & -> & Hp & Hne) _ IH]; [done|].
  simpl. unfold bind at 1, subscript. by rewrite (getitem_Some _ _ _ _ Hp), Hne.
Qed.

Lemma find_title_hit (sub : pystr) (d : record) (t : value)
  (post : list value) (tr : list event) :
  d !! k_gallery_path = Some (VStr sub) ->
  d !! k_display_name = Some t ->
  find_title sub (VDict d :: post) tr = (Ok t, tr).
Proof.
  intros Hp Ht. simpl. unfold bind at 1, subscript.
  rewrite (getitem_Some _ _ _ _ Hp). simpl.
  rewrite bool_decide_eq_true_2 by done. by apply getitem_Some.
Qed.

Lemma find_title_trace (sub : pystr) (entries : list value)
  (r : result value) (tr tr' : list event) :
  find_title sub entries tr = (r, tr') -> tr' = tr.
Proof.
  induction entries as [|v rest IH]; simpl; [by intros [= _ <-]|].
  unfold bind at 1.
  destruct (subscript v k_gallery_path tr) as [[path|e] tr1] eqn:Hs.
  - assert (tr1 = tr) as ->.
    { destruct v; simpl in Hs; try (by injection Hs).
      by apply getitem_inv in Hs as [-> _]. }
    destruct (str_eq sub path); [|done].
    destruct v; simpl; try (by intros [= _ <-]).
    by intros [-> _]%getitem_inv.
  - destruct v; simpl in Hs; try (injection Hs as <- <-; by intros [= _ <-]).
    apply getitem_inv in Hs as [-> _]. by intros [= _ <-].
Qed.

(** X16. The title of a sub-gallery page is the display name of the
    first entry of the top-level list whose path is the sub-gallery key;
    when that display name is null, the default title made from the
    directory name is used instead. *)
Theorem gallery_title_first_match (sub : pystr) (top d : record)
  (pre post : list value) (t : value) (tr : list event) :
  top !! k_galleries = Some (VList (pre ++ VDict d :: post)) ->
  Forall (other_gallery sub) pre ->
  d !! k_gallery_path = Some (VStr sub) ->
  d !! k_display_name = Some t ->
  gallery_title sub (VDict top) tr =
  (Ok (if is_none t then VStr (default_title sub) else t), tr).
Proof.
  intros Hg Hpre Hp Ht. unfold gallery_title.
  unfold bind at 1, subscript. rewrite (getitem_Some _ _ _ _ Hg).
  unfold bind at 1, iterate, ret. unfold bind at 1.
  by rewrite (find_title_skip _ _ _ _ Hpre), (find_title_hit _ _ t).
Qed.

(** X17. When no entry of the top-level list has the sub-gallery key as
    its path, the title is the directory name followed by [Gallery]. *)
Theorem gallery_title_default (sub : pystr) (top : record)
  (entries : list value) (tr : list event) :
  top !! k_galleries = Some (VList entries) ->
  Forall (other_gallery sub) entries ->
  gallery_title sub (VDict top) tr = (Ok (VStr (default_title sub)), tr).
Proof.
  intros Hg Hall. unfold gallery_title.
  unfold bind at 1, subscript. rewrite (getitem_Some _ _ _ _ Hg).
  unfold bind at 1, iterate, ret. unfold bind at 1.
  rewrite <- (app_nil_r entries). by rewrite (find_title_skip _ _ _ _ Hall).
Qed.

(** X18. The panels of the homepage are the entries of the top-level
    list whose path is the key of a sub-gallery that got a page, in the
    order of the list, each with the label of that sub-gallery; the other
    entries are left out without an error. *)
Theorem homepage_panels_filter (gallery_labels : gmap pystr pystr)
  (ds : list record) (tr : list event) :
  Forall (fun d => exists p, d !! k_gallery_path = Some p /\
                             hashable p = true) ds ->
  homepage_panels gallery_labels (VDict <$> ds) tr =
  (Ok (omap (panel_of gallery_labels) ds), tr).
Proof.
  induction 1 as [|d ds (p & Hp & Hh) _ IH]; [done|].
  rewrite fmap_cons. cbn [homepage_panels omap list_omap].
  unfold bind at 1, subscript. rewrite (getitem_Some _ _ _ _ Hp).
  unfold panel_of at 1. rewrite Hp.
  destruct p as [|p| | | |]; try done;
    cbn [label_of]; unfold bind at 1, ret; try (by rewrite IH).
  destruct (gallery_labels !! p) as [id|]; cbn [fmap option_fmap option_map];
    [|by rewrite IH].
  unfold bind at 1, set_label, ret. unfold bind at 1. by rewrite IH.
Qed.

Lemma subscript_trace (v : value) (k : pystr) (r : result value)
  (tr tr' : list event) :
  subscript v k tr = (r, tr') -> tr' = tr.
Proof.
  destruct v; simpl; try (by intros [= _ <-]). by intros [-> _]%getitem_inv.
Qed.

Lemma gallery_title_trace (sub : pystr) (yaml_data : value)
  (r : result value) (tr tr' : list event) :
  gallery_title sub yaml_data tr = (r, tr') -> tr' = tr.
Proof.
  unfold gallery_title. unfold bind at 1.
  destruct (subscript yaml_data k_galleries tr) as [[g|e] tr1] eqn:Hs;
    apply subscript_trace in Hs as ->; [|by intros [= _ <-]].
  unfold bind at 1.
  destruct (iterate g tr) as [[entries|e] tr1] eqn:Hi.
  - assert (tr1 = tr) as -> by (destruct g; by injection Hi).
    unfold bind at 1.
    destruct (find_title sub entries tr) as [[t|e] tr1] eqn:Hf;
      apply find_title_trace in Hf as ->; by intros [= _ <-].
  - assert (tr1 = tr) as -> by (destruct g; by injection Hi).
    by intros [= _ <-].
Qed.

Section site.
Context (E : env).

Lemma build_gallery_page_inv (yaml_data : value)
  (gallery_labels labels' : gmap pystr pystr)
  (item : pystr * gmap pystr (list record)) (tr tr' : list event) :
  build_gallery_page E yaml_data gallery_labels item tr = (Ok labels', tr') ->
  exists bs page,
    utf8_encode (Posixpath.basename item.1) = Some bs /\
    labels' = <[item.1 := Base64.b64encode bs]> gallery_labels /\
    is_gallery_page item page /\
    tr' = tr ++ [page].
Proof.
  unfold build_gallery_page, gallery_label. unfold bind at 1.
  destruct (utf8_encode (Posixpath.basename item.1)) as [bs|] eqn:Hbs; [|done].
  unfold ret. unfold bind at 1.
  destruct (gallery_title item.1 yaml_data tr) as [[title|e] tr1] eqn:Ht;
    apply gallery_title_trace in Ht as ->; [|done].
  unfold render_page. unfold_monad.
  match goal with
  | |- context [render_error E ?t ?a ?b ?c] =>
      destruct (render_error E t a b c)
  end; [done|].
  intros [= <- <-]. eexists bs, _. split_and!; try done.
  by exists bs, title.
Qed.

Lemma build_gallery_pages_inv (yaml_data : value)
  (items : list (pystr * gmap pystr (list record)))
  (gallery_labels labels' : gmap pystr pystr) (tr tr' : list event) :
  build_gallery_pages E yaml_data gallery_labels items tr = (Ok labels', tr') ->
  exists pages,
    tr' = tr ++ pages /\
    Forall2 is_gallery_page items pages /\
    forall p, is_Some (labels' !! p) <->
              is_Some (gallery_labels !! p) \/ p ∈ items.*1.
Proof.
  revert gallery_labels tr.
  induction items as [|item rest IH]; intros gallery_labels tr; simpl.
  - intros [= <- <-]. exists []. rewrite app_nil_r. split_and!; try done.
    intros p. split; [by left|]. intros [?|?%elem_of_nil]; done.
  - unfold bind at 1.
    destruct (build_gallery_page E yaml_data gallery_labels item tr)
      as [[labels1|e] tr1] eqn:Hstep; [|done].
    apply build_gallery_page_inv in Hstep as (bs & page & _ & -> & Hpage & ->).
    intros (pages & -> & Hpages & Hdom)%IH.
    exists (page :: pages). split_and!.
    + by rewrite <- app_assoc.
    + by constructor.
    + intros p. rewrite Hdom, lookup_insert_is_Some, elem_of_cons.
      destruct (decide (item.1 = p)) as [-> | Hne]; intuition congruence.
Qed.

Lemma label_of_trace (gallery_labels : gmap pystr pystr) (x : value)
  (r : result (option pystr)) (tr tr' : list event) :
  label_of gallery_labels x tr = (r, tr') -> tr' = tr.
Proof. destruct x; simpl; by intros [= _ <-]. Qed.

Lemma homepage_panels_inv (gallery_labels : gmap pystr pystr)
  (entries : list value) (panels : list value) (tr tr' : list event) :
  homepage_panels gallery_labels entries tr = (Ok panels, tr') ->
  tr' = tr /\ Forall (is_panel gallery_labels entries) panels.
Proof.
  revert panels tr'.
  induction entries as [|v rest IH]; intros panels tr'; simpl.
  - by intros [= <- <-].
  - unfold bind at 1.
    destruct (subscript v k_gallery_path tr) as [[path|e] tr1] eqn:Hs;
      pose proof (subscript_trace _ _ _ _ _ Hs) as ->; [|done].
    unfold bind at 1.
    destruct (label_of gallery_labels path tr) as [[found|e] tr1] eqn:Hl;
      pose proof (label_of_trace _ _ _ _ _ Hl) as ->; [|done].
    assert (Hweaken : forall ps,
              Forall (is_panel gallery_labels rest) ps ->
              Forall (is_panel gallery_labels (v :: rest)) ps).
    { intros ps Hps. eapply Forall_impl; [exact Hps|].
      intros panel (d & p & id & Hin & ? & ? & ?).
      exists d, p, id. split_and!; try done. by right. }
    destruct found as [id|].
    + unfold bind at 1.
      destruct v as [| | | | |d]; try done. simpl. unfold ret.
      unfold bind at 1.
      destruct (homepage_panels gallery_labels rest tr)
        as [[ps|e] tr1] eqn:Hrest; [|done].
      destruct (IH _ _ eq_refl) as [-> Hps]. intros [= <- <-].
      split; [done|]. constructor; [|by apply Hweaken].
      simpl in Hs. apply getitem_inv in Hs as [_ Hs].
      destruct (d !! k_gallery_path) as [x|] eqn:Hd; [|done].
      injection Hs as <-.
      destruct path as [|p| | | |]; try done. simpl in Hl.
      injection Hl as Hl.
      exists d, p, id. split_and!; try done. by left.
    + intros Hrest. destruct (IH _ _ Hrest) as [-> Hps].
      split; [done|]. by apply Hweaken.
Qed.

(** X19. A run of the site stage that completes has rendered one page
    per sub-gallery, in the order of the items and each at [index.rst] of
    its sub-gallery with that sub-gallery's categories, and then the
    homepage; every panel of the homepage is an entry of the top-level
    list whose path is one of those sub-galleries. *)
Theorem build_site_pages
  (items : list (pystr * gmap pystr (list record))) (tr tr' : list event) :
  build_site E items tr = (Ok tt, tr') ->
  exists pages panels,
    tr' = tr ++ pages ++ [homepage_page panels] /\
    Forall2 is_gallery_page items pages /\
    Forall (fun panel => exists d p id,
              panel = VDict (<[k_label := VStr id]> d) /\
              d !! k_gallery_path = Some (VStr p) /\
              p ∈ items.*1) panels.
Proof.
  unfold build_site. unfold bind at 1, history. unfold bind at 1, lift.
  destruct (load_yaml E tr top_conf_path) as [yaml_data|e]; [|done].
  unfold bind at 1.
  destruct (build_gallery_pages E yaml_data ∅ items tr)
    as [[labels|e] tr1] eqn:Hpages; [|done].
  apply build_gallery_pages_inv in Hpages as (pages & -> & Hpages & Hdom).
  unfold bind at 1.
  destruct (subscript yaml_data k_galleries _) as [[g|e] tr1] eqn:Hs;
    apply subscript_trace in Hs as ->; [|done].
  unfold bind at 1.
  destruct (iterate g _) as [[entries|e] tr1] eqn:Hi; [|done].
  assert (tr1 = tr ++ pages) as -> by (destruct g; by injection Hi).
  unfold bind at 1.
  destruct (homepage_panels labels entries _) as [[panels|e] tr1] eqn:Hp;
    [|done].
  apply homepage_panels_inv in Hp as [-> Hpanels].
  unfold render_page. unfold_monad.
  match goal with
  | |- context [render_error E ?t ?a ?b ?c] =>
      destruct (render_error E t a b c)
  end; [done|].
  intros [= <-]. exists pages, panels. split_and!.
  - by rewrite <- app_assoc.
  - done.
  - eapply Forall_impl; [exact Hpanels|].
    intros panel (d & p & id & _ & Hd & Hid & ->).
    exists d, p, id. split_and!; try done.
    assert (is_Some (labels !! p)) as [Hnone | Hin]%Hdom by eauto; [|done].
    rewrite lookup_empty in Hnone. by destruct Hnone.
Qed.

(** X20. A top-level configuration that is a mapping without the
    [galleries] list stops the site stage before anything is rendered:
    neither a sub-gallery page nor the homepage is written. *)
Theorem missing_galleries_renders_nothing
  (items : list (pystr * gmap pystr (list record))) (top : record)
  (tr : list event) :
  load_yaml E tr top_conf_path = Ok (VDict top) ->
  top !! k_galleries = None ->
  exists e,
    build_site E items tr = (Raise e, tr) /\
    (e = KeyError k_galleries \/ e = UnicodeEncodeError).
Proof.
  intros Hload Hg. unfold build_site.
  unfold bind at 1, history. unfold bind at 1, lift. rewrite Hload.
  unfold bind at 1. destruct items as [|item rest]; simpl.
  - unfold ret. unfold bind at 1, subscript.
    rewrite (getitem_None _ _ _ Hg). eauto.
  - unfold bind at 1, build_gallery_page.
    unfold bind at 1, gallery_label.
    destruct (utf8_encode _); [|eauto].
    unfold ret. unfold bind at 1, gallery_title.
    unfold bind at 1, subscript. rewrite (getitem_None _ _ _ Hg). eauto.
Qed.

(** ** The main program *)

Lemma traverse_ordered_Ok (walk : list (pystr * list pystr))
  (sg sg' : index) (order : list pystr) (tr tr' : list event) :
  traverse E walk sg tr = (Ok sg', tr') ->
  exists order', traverse_ordered E walk sg order tr = (Ok (sg', order'), tr').
Proof.
  revert sg order tr. induction walk as [|entry rest IH];
    intros sg order tr; simpl.
  - intros [= <- <-]. by exists order.
  - unfold bind at 1. unfold bind at 1.
    destruct (process_directory E entry sg tr) as [[sg1|e] tr1]; [|done].
    apply IH.
Qed.

Lemma traverse_ordered_Raise (walk : list (pystr * list pystr))
  (sg : index) (order : list pystr) (e : exn) (tr tr' : list event) :
  traverse E walk sg tr = (Raise e, tr') ->
  traverse_ordered E walk sg order tr = (Raise e, tr').
Proof.
  revert sg order tr. induction walk as [|entry rest IH];
    intros sg order tr; simpl.
  - done.
  - unfold bind at 1. unfold bind at 1.
    destruct (process_directory E entry sg tr) as [[sg1|e1] tr1];
      [apply IH | by intros [= <- <-]].
Qed.

(** X21. The top-level configuration is opened only after the whole
    traversal: when it cannot be loaded the run ends with that error, all
    the examples already built, cached and rendered, and no sub-gallery
    page or homepage written. *)
Theorem top_conf_error_after_traversal (walk : list (pystr * list pystr))
  (sg : index) (e : exn) (tr tr1 : list event) :
  traverse E walk ∅ tr = (Ok sg, tr1) ->
  load_yaml E tr1 top_conf_path = Raise e ->
  main E walk tr = (Raise e, tr1).
Proof.
  intros Htr Hload. unfold main. unfold bind at 1.
  destruct (traverse_ordered_Ok _ _ _ [] _ _ Htr) as (order & ->).
  unfold build_site. unfold bind at 1, history. unfold bind at 1, lift.
  by rewrite Hload.
Qed.

(** X22. An error of the traversal is an error of the run: nothing of
    the site stage happens, so a single example that raises leaves the
    site without its sub-gallery pages and its homepage. *)
Theorem traversal_error_ends_main (walk : list (pystr * list pystr))
  (e : exn) (tr tr1 : list event) :
  traverse E walk ∅ tr = (Raise e, tr1) ->
  main E walk tr = (Raise e, tr1).
Proof.
  intros Htr. unfold main. unfold bind at 1.
  by rewrite (traverse_ordered_Raise _ _ [] _ _ _ Htr).
Qed.





End site.

(** ** Edges of the grouping and of the effects *)

(** X24. An example directory only one level below the top of the walk
    has no sub-gallery directory above its category: it is filed under
    the empty sub-gallery key, with its parent directory as category. *)
Theorem shallow_example_grouping (top example : pystr) :
  Posixpath.is_name top ->
  Posixpath.sep ∉ example ->
  subgallery_of (top ++ Posixpath.sep :: example) = [] /\
  category_of (top ++ Posixpath.sep :: example) = top.
Proof.
  intros Htop Hex.
  assert (Hdir : Posixpath.dirname (top ++ Posixpath.sep :: example) = top).
  { apply (Posixpath_dirname_app [] example top); done. }
  unfold subgallery_of, category_of. rewrite Hdir.
  unfold Posixpath.dirname, Posixpath.basename.
  by rewrite (Posixpath_rfind_sep_succ_none top) by apply Htop.
Qed.


(* ================================================================== *)
(** * The further properties at concrete inputs *)

Lemma fetched_record_keys_witness :
  exists r root,
    http_get E_full [] (scimeta_url E_full (VStr (lit "abc123"))) = Some r /\
    document r = Some root /\
    dom (record_of run_full) =
      {[k_authors; k_title; k_description]} ∪
      (match dc_subjects root with
       | [] => ∅
       | _ :: _ => {[k_keywords]}
       end : gset pystr).
Proof.
  apply (fetched_record_keys E_full (VStr (lit "abc123")) (record_of run_full)
           [] run_full.2).
  by_compute.
Defined.

Lemma fetched_keywords_witness :
  exists r root,
    http_get E_full [] (scimeta_url E_full (VStr (lit "abc123"))) = Some r /\
    document r = Some root /\
    record_of run_full !! k_keywords =
      match dc_subjects root with
      | [] => None
      | _ :: _ => Some (VList (text_value <$> dc_subjects root))
      end.
Proof.
  apply (fetched_keywords E_full (VStr (lit "abc123")) (record_of run_full)
           [] run_full.2).
  by_compute.
Defined.

Lemma fetched_authors_witness :
  exists r root terms,
    http_get E_full [] (scimeta_url E_full (VStr (lit "abc123"))) = Some r /\
    document r = Some root /\
    dc_creators root = Some <$> terms /\
    record_of run_full !! k_authors =
      Some (VList ((fun t => VDict (author_record E_full t)) <$> terms)).
Proof.
  apply (fetched_authors E_full (VStr (lit "abc123")) (record_of run_full)
           [] run_full.2).
  by_compute.
Defined.

Lemma label_precedence_witness :
  ensure_label conf_labelled []
    = (Ok (<[k_label := VStr (lit "mine")]> conf_labelled), []).
Proof.
  apply (label_precedence conf_labelled (VStr (lit "mine")) []).
  left. by_compute.
Defined.

Lemma build_example_page_not_mapping_witness :
  build_example_page E_empty_conf ex1 (conf_path ex1) []
    = (Raise AttributeError, []).
Proof.
  apply (build_example_page_not_mapping E_empty_conf ex1 (conf_path ex1)
           VNone []).
  - by_compute.
  - left. reflexivity.
Defined.

Lemma cache_precedes_relocation_witness :
  let outcome := process_directory E_demo (ex1, [lit "conf.yaml"]) ∅ [] in
  index_of outcome = ∅ \/
  exists data name pre post,
    index_of outcome
      = file_record ex1 (<[k_thumbnail := VStr name]> data) ∅ /\
    outcome.2 = pre ++
      [WriteCache (Posixpath.join ex1 (lit ".cache.yaml")) data;
       RenderPage landing_template data
         (Posixpath.join ex1 (lit "index.rst"))] ++ post /\
    (post = [warn_missing_thumbnail] \/
     exists src dst, post = [CopyFile src dst]).
Proof.
  intros outcome.
  apply (cache_precedes_relocation E_demo (ex1, [lit "conf.yaml"]) ∅
           (index_of outcome) [] outcome.2).
  by_compute.
Defined.

Lemma copy_static_relocates_witness :
  copy_static E_thumbnail ex1 record_thumbnail [] =
  (Ok (<[k_thumbnail := VStr (lit "thumbnail-" ++ lit "RGVtbw==")]>
         record_thumbnail),
   [] ++ [CopyFile (abspath E_thumbnail (Posixpath.join ex1 (lit "thumb.png")))
            (static_dir ++ lit "/" ++ lit "thumbnail-" ++ lit "RGVtbw==")]).
Proof.
  apply (copy_static_relocates E_thumbnail ex1 (lit "thumb.png")
           (VStr (lit "RGVtbw==")) record_thumbnail []); by_compute.
Defined.

Lemma non_string_thumbnail_aborts_witness :
  let built := build_example_page E_null_thumbnail ex1 (conf_path ex1)
                 ([] ++ [processing_line ex1]) in
  copy_static E_null_thumbnail ex1 (record_of built) built.2
    = (Raise TypeError, built.2) /\
  traverse E_null_thumbnail ((ex1, [lit "conf.yaml"]) :: walk_two) ∅ []
    = (Raise TypeError, built.2).
Proof.
  intros built.
  apply (non_string_thumbnail_aborts E_null_thumbnail ex1 [lit "conf.yaml"]
           walk_two ∅ conf_null_thumbnail (record_of built) VNone [] built.2).
  - apply list_elem_of_here.
  - by_compute.
  - by_compute.
  - reflexivity.
  - by_compute.
Defined.

Lemma traverse_index_ok_witness :
  index_ok (index_of (traverse E_not_found walk_two ∅ [])).
Proof.
  apply (traverse_index_ok E_not_found walk_two ∅ _ []
           (traverse E_not_found walk_two ∅ []).2).
  - intros g cats Hg. vm_compute in Hg. discriminate Hg.
  - by_compute.
Defined.

Lemma derived_label_is_base64_text_witness :
  exists title bs label,
    conf_demo !! k_title = Some (VStr title) /\
    utf8_encode title = Some bs /\
    VStr (lit "RGVtbw==") = VStr label /\
    Forall (fun c => base64_char c = true) label /\
    exists k, length label = (4 * k)%nat /\
              (length bs <= 3 * k < length bs + 3)%nat.
Proof.
  apply (derived_label_is_base64_text conf_demo (VStr (lit "RGVtbw==")) [] []).
  by_compute.
Defined.

Lemma derived_label_injective_witness :
  conf_demo !! k_title = conf_null_thumbnail !! k_title.
Proof.
  apply (derived_label_injective conf_demo conf_null_thumbnail
           (VStr (lit "RGVtbw==")) [] [] [] []); by_compute.
Defined.

Lemma example_files_beside_conf_witness :
  let subdir := lit "./source/gallery/sub/cat/" ++ lit "ex1" in
  Posixpath.dirname (conf_path subdir) = subdir /\
  Posixpath.basename (conf_path subdir) = lit "conf.yaml" /\
  Posixpath.dirname (Posixpath.join subdir (lit ".cache.yaml")) = subdir /\
  Posixpath.dirname (Posixpath.join subdir (lit "index.rst")) = subdir.
Proof.
  apply (example_files_beside_conf (lit "./source/gallery/sub/cat/")
           (lit "ex1")).
  split; [discriminate | by apply (bool_decide_unpack _); vm_compute].
Defined.

Lemma gallery_title_first_match_witness :
  gallery_title gallery_sub (VDict top_conf) [] =
  (Ok (if is_none (VStr (lit "Worked examples"))
       then VStr (default_title gallery_sub)
       else VStr (lit "Worked examples")), []).
Proof.
  apply (gallery_title_first_match gallery_sub top_conf entry_sub
           [VDict entry_empty] [] (VStr (lit "Worked examples")) []).
  - by_compute.
  - constructor; [|constructor].
    exists entry_empty, (VStr (lit "./source/gallery/empty")).
    split_and!; [reflexivity | by_compute | by_compute].
  - by_compute.
  - by_compute.
Defined.

Lemma gallery_title_default_witness :
  gallery_title (lit "./source/gallery/other") (VDict top_conf) [] =
  (Ok (VStr (default_title (lit "./source/gallery/other"))), []).
Proof.
  apply (gallery_title_default (lit "./source/gallery/other") top_conf
           [VDict entry_empty; VDict entry_sub] []).
  - by_compute.
  - constructor; [|constructor; [|constructor]].
    + exists entry_empty, (VStr (lit "./source/gallery/empty")).
      split_and!; [reflexivity | by_compute | by_compute].
    + exists entry_sub, (VStr gallery_sub).
      split_and!; [reflexivity | by_compute | by_compute].
Defined.

Lemma homepage_panels_filter_witness :
  homepage_panels {[gallery_sub := lit "c3Vi"]}
    (VDict <$> [entry_empty; entry_sub]) [] =
  (Ok (omap (panel_of {[gallery_sub := lit "c3Vi"]})
         [entry_empty; entry_sub]), []).
Proof.
  apply (homepage_panels_filter {[gallery_sub := lit "c3Vi"]}
           [entry_empty; entry_sub] []).
  constructor; [|constructor; [|constructor]].
  - exists (VStr (lit "./source/gallery/empty")). split; [by_compute|reflexivity].
  - exists (VStr gallery_sub). split; [by_compute|reflexivity].
Defined.

Lemma build_site_pages_witness :
  let built := ordered_of (traverse_ordered E_site walk_two ∅ [] []) in
  let items := items_of built.1 built.2 in
  exists pages panels,
    (build_site E_site items []).2 = [] ++ pages ++ [homepage_page panels] /\
    Forall2 is_gallery_page items pages /\
    Forall (fun panel => exists d p id,
              panel = VDict (<[k_label := VStr id]> d) /\
              d !! k_gallery_path = Some (VStr p) /\
              p ∈ items.*1) panels.
Proof.
  intros built items.
  apply (build_site_pages E_site items [] (build_site E_site items []).2).
  by_compute.
Defined.

Lemma missing_galleries_renders_nothing_witness :
  exists e,
    build_site E_no_galleries [] [] = (Raise e, []) /\
    (e = KeyError k_galleries \/ e = UnicodeEncodeError).
Proof.
  apply (missing_galleries_renders_nothing E_no_galleries [] ∅ []);
    by_compute.
Defined.

Lemma top_conf_error_after_traversal_witness :
  main E_no_top walk_two []
    = (Raise (OSError 2), (traverse E_no_top walk_two ∅ []).2).
Proof.
  apply (top_conf_error_after_traversal E_no_top walk_two
           (index_of (traverse E_no_top walk_two ∅ [])) (OSError 2) []
           (traverse E_no_top walk_two ∅ []).2); by_compute.
Defined.

Lemma traversal_error_ends_main_witness :
  main E_missing walk_two []
    = (Raise (KeyError k_description), [processing_line ex1]).
Proof.
  apply (traversal_error_ends_main E_missing walk_two
           (KeyError k_description) [] [processing_line ex1]).
  by_compute.
Defined.


Lemma shallow_example_grouping_witness :
  subgallery_of (lit "gallery" ++ Posixpath.sep :: lit "ex1") = [] /\
  category_of (lit "gallery" ++ Posixpath.sep :: lit "ex1") = lit "gallery".
Proof.
  apply (shallow_example_grouping (lit "gallery") (lit "ex1")).
  - split; [discriminate | by apply (bool_decide_unpack _); vm_compute].
  - by apply (bool_decide_unpack _); vm_compute.
Defined.


Lemma author_record_entries_witness :
  author_record E_full creator_ada !! k_name
    = text_value <$> hs_name creator_ada /\
  author_record E_full creator_ada !! k_organization
    = text_value <$> hs_organization creator_ada /\
  author_record E_full creator_ada !! k_email
    = text_value <$> hs_email creator_ada /\
  author_record E_full creator_ada !! k_url =
    (fun el => VStr (lit "https://hydroshare.org"
                     ++ default (lit "None") el))
      <$> hs_description creator_ada /\
  forall k, k ∉ [k_name; k_organization; k_email; k_url] ->
    author_record E_full creator_ada !! k = None.
Proof. apply (author_record_entries E_full creator_ada). Defined.
